(** * Verification of [src/format/format.ts] (redocly-cli)

    The message formatter is embedded as a program over an explicit world:
    a store of JavaScript arrays and message objects (so that in-place
    operations such as [Array.prototype.sort] act on shared cells), the
    process-wide colour toggle [colorOptions.enabled], and the sequence of
    chunks written to [process.stderr].  Exceptions are completions of the
    computation, next to the world reached when they were thrown. *)

From stdpp Require Import gmap strings list fin_maps pretty.
From Stdlib Require Import ZArith Lia Ascii.

Open Scope Z_scope.

(** ** Data model *)

Module Walk.

(** Modelled from the spec: the type [MessageSeverity] of [src/walk.ts]
    ("enum: warn | error"). *)
Inductive MessageSeverity := error | warn.

(** Modelled from the spec: [Source], of which the formatter reads
    [absoluteRef] only. *)
Record Source := { absoluteRef : string }.

(** Modelled from the spec: [LocationObject], a structural location with its
    optional [pointer]. *)
Record LocationObject := { source : Source; pointer : option string }.

(** A resolved position [{line, col}]. *)
Record Loc := { line : Z; col : Z }.

(** Modelled from the spec: [LineColLocationObject], a location resolved to
    line and column.  The formatter reads [start] only. *)
Record LineColLocationObject := { resolved : LocationObject; start : Loc }.

(** [NormalizedReportMessage & { ignored?: boolean }] when [L] is
    [LocationObject]; [OnlyLineColMessage] (the same object with its
    [location] re-shaped) when [L] is [LineColLocationObject]. *)
Record ReportMessage (L : Type) := {
  severity : MessageSeverity;
  message : string;
  ruleId : string;
  suggest : list string;
  ignored : option bool;
  location : list L;
  from : option LocationObject;
}.
Arguments severity {L} _.
Arguments message {L} _.
Arguments ruleId {L} _.
Arguments suggest {L} _.
Arguments ignored {L} _.
Arguments location {L} _.
Arguments from {L} _.

End Walk.
Export Walk.

Abbreviation NormalizedReportMessage := (ReportMessage LocationObject).
Abbreviation OnlyLineColMessage := (ReportMessage LineColLocationObject).

#[global] Instance MessageSeverity_eq_dec : EqDecision MessageSeverity.
Proof. solve_decision. Defined.

Inductive OutputFormat := codeframe | stylish.

(** The [opts] argument of [formatMessages]; an absent key is [None]. *)
Record Options := {
  maxMessages : option Z;
  cwd : option string;
  format : option OutputFormat;
  color : option bool;
}.

(** ** External collaborators

    [getLineColLocation] and [getCodeframe] come from [./codeframes], the six
    styling functions from colorette, [path_relative] is [path.relative] and
    [process_cwd] is [process.cwd()].  A colorette function reads
    [colorOptions.enabled] when it is called: that value is its first
    argument here. *)
Class Externals := {
  getLineColLocation : LocationObject → LineColLocationObject;
  getCodeframe : LineColLocationObject → bool → string;
  path_relative : string → string → string;
  process_cwd : string;
  gray : bool → string → string;
  blue : bool → string → string;
  bgRed : bool → string → string;
  bgYellow : bool → string → string;
  yellow : bool → string → string;
  red : bool → string → string;
}.

(** ** Completions and the world *)

Inductive JSError := TypeError.

Inductive Completion (A : Type) :=
| Normal (a : A)
| Throw (e : JSError).
Arguments Normal {A} _.
Arguments Throw {A} _.

#[global] Instance Completion_ret : MRet Completion := @Normal.
#[global] Instance Completion_bind : MBind Completion := λ A B f c,
  match c with Normal a => f a | Throw e => Throw e end.

Abbreviation ref := nat (only parsing).

Record World := {
  arrays : gmap nat (list nat);
  objects : gmap nat NormalizedReportMessage;
  colorEnabled : bool;
  stderr : list string;
}.

Definition M (A : Type) : Type := World → Completion A * World.

#[global] Instance M_ret : MRet M := λ A a w, (Normal a, w).
#[global] Instance M_bind : MBind M := λ A B f m w,
  match m w with
  | (Normal a, w1) => f a w1
  | (Throw e, w1) => (Throw e, w1)
  end.

Definition lift {A} (c : Completion A) : M A := λ w, (c, w).

Definition getColorEnabled : M bool := λ w, (Normal (colorEnabled w), w).

Definition setColorEnabled (b : bool) : M unit := λ w,
  (Normal tt,
   {| arrays := arrays w; objects := objects w;
      colorEnabled := b; stderr := stderr w |}).

(** [process.stderr.write(chunk)] *)
Definition stderr_write (chunk : string) : M unit := λ w,
  (Normal tt,
   {| arrays := arrays w; objects := objects w;
      colorEnabled := colorEnabled w; stderr := stderr w ++ [chunk] |}).

Definition set_arrays (h : gmap nat (list nat)) (w : World) : World :=
  {| arrays := h; objects := objects w;
     colorEnabled := colorEnabled w; stderr := stderr w |}.

(** Reading through a reference that holds no array (or no object) is a
    property access on [undefined]. *)
Definition readArray (arr : ref) : M (list ref) := λ w,
  match arrays w !! arr with
  | Some elems => (Normal elems, w)
  | None => (Throw TypeError, w)
  end.

Definition readObject (r : ref) : M NormalizedReportMessage := λ w,
  match objects w !! r with
  | Some o => (Normal o, w)
  | None => (Throw TypeError, w)
  end.

Definition newArray (elems : list ref) : M ref := λ w,
  let arr := fresh (dom (arrays w)) in
  (Normal arr, set_arrays (<[arr := elems]> (arrays w)) w).

Definition writeArray (arr : ref) (elems : list ref) : M unit := λ w,
  match arrays w !! arr with
  | Some _ => (Normal tt, set_arrays (<[arr := elems]> (arrays w)) w)
  | None => (Throw TypeError, w)
  end.

(** [for (let i = i0; ...; i++) body(i, l[i - i0])] *)
Fixpoint for_each {A} (body : nat → A → M unit) (i : nat) (l : list A) : M unit :=
  match l with
  | [] => mret tt
  | x :: l' => body i x ;; for_each body (S i) l'
  end.

(** ** Built-ins of the language *)

Definition LF : string := String "010"%char "".

(** Truthiness of an optional boolean property. *)
Definition truthy (b : option bool) : bool := default false b.

(** [arr.length] *)
Definition Array_length (arr : ref) : M Z :=
  elems ← readArray arr; mret (Z.of_nat (length elems)).

(** [arr.filter(callbackFn)]: a new array of the elements that pass. *)
Definition Array_filter (callbackFn : NormalizedReportMessage → bool)
    (arr : ref) : M ref :=
  elems ← readArray arr;
  os ← mapM readObject elems;
  newArray (filter (λ ro, callbackFn ro.2 = true) (zip elems os)).*1.

(** The stable sort the language prescribes for [Array.prototype.sort]:
    [x] moves behind [y] only when [compareFn(x, y) > 0]. *)
Fixpoint sort_insert {A} (compareFn : A → A → Z) (x : A) (l : list A) : list A :=
  match l with
  | [] => [x]
  | y :: l' =>
      if 0 <? compareFn x y then y :: sort_insert compareFn x l' else x :: l
  end.

Definition stable_sort {A} (compareFn : A → A → Z) (l : list A) : list A :=
  foldr (sort_insert compareFn) [] l.

(** [arr.sort(compareFn)]: sorts [arr] in place and returns [arr] itself. *)
Definition Array_sort
    (compareFn : NormalizedReportMessage → NormalizedReportMessage → Z)
    (arr : ref) : M ref :=
  elems ← readArray arr;
  os ← mapM readObject elems;
  writeArray arr (stable_sort (λ a b, compareFn a.2 b.2) (zip elems os)).*1;;
  mret arr.

(** A relative index of [slice]: negative counts from the end. *)
Definition relative_index (len k : Z) : Z :=
  if k <? 0 then Z.max (len + k) 0 else Z.min k len.

Definition slice {A} (l : list A) (start end_ : Z) : list A :=
  let len := Z.of_nat (length l) in
  let k := relative_index len start in
  let final := relative_index len end_ in
  take (Z.to_nat (final - k)) (drop (Z.to_nat k) l).

(** [arr.slice(start, end)]: a new array. *)
Definition Array_slice (arr : ref) (start end_ : Z) : M ref :=
  elems ← readArray arr; newArray (slice elems start end_).

(** [str.padEnd(targetLength)] *)
Definition padEnd (s : string) (targetLength : nat) : string :=
  s +:+ String.concat "" (replicate (targetLength - String.length s)%nat " ").

(** [`${n}`] for an integer [n] that a number of the language holds exactly
    and prints with all its digits: [|n| < 2^53]. *)
Definition num (n : Z) : string := pretty n.

(** ** Plain objects used as dictionaries

    [fileGroups] is an object literal [{}] indexed by file names.  Its own
    properties are kept in creation order; a key that is not an own property
    is looked up on [Object.prototype]; [Object.entries] lists array-index
    keys first, in ascending numeric order, then the other keys in creation
    order. *)

Definition digit_value (c : ascii) : option N :=
  let n := N_of_ascii c in
  if ((48 <=? n) && (n <=? 57))%N then Some (n - 48)%N else None.

Fixpoint parse_digits (acc : N) (s : string) : option N :=
  match s with
  | EmptyString => Some acc
  | String c s' => d ← digit_value c; parse_digits (10 * acc + d)%N s'
  end.

(** The array index a property key denotes: the canonical decimal string of
    an integer below [2^32 - 1]. *)
Definition array_index (k : string) : option N :=
  match k with
  | EmptyString => None
  | _ =>
      n ← parse_digits 0 k;
      if ((n <=? 4294967294)%N && String.eqb (pretty n) k) then Some n else None
  end.

Definition Object_prototype_keys : list string :=
  [ "constructor"; "__defineGetter__"; "__defineSetter__"; "hasOwnProperty";
    "__lookupGetter__"; "__lookupSetter__"; "isPrototypeOf";
    "propertyIsEnumerable"; "toString"; "valueOf"; "__proto__";
    "toLocaleString" ].

Definition Object_prototype_has (k : string) : bool :=
  bool_decide (k ∈ Object_prototype_keys).

Fixpoint own_get {V} (o : list (string * V)) (k : string) : option V :=
  match o with
  | [] => None
  | (k', v) :: o' => if decide (k' = k) then Some v else own_get o' k
  end.

Fixpoint own_set {V} (o : list (string * V)) (k : string) (v : V)
    : list (string * V) :=
  match o with
  | [] => [(k, v)]
  | (k', v') :: o' =>
      if decide (k' = k) then (k, v) :: o' else (k', v') :: own_set o' k v
  end.

Definition Object_entries {V} (o : list (string * V)) : list (string * V) :=
  stable_sort
    (λ a b, Z.of_N (default 0%N (array_index a.1))
            - Z.of_N (default 0%N (array_index b.1)))
    (filter (λ kv, is_Some (array_index kv.1)) o)
  ++ filter (λ kv, array_index kv.1 = None) o.

(** ** The formatter *)

Record FileGroup := {
  locationPad : nat;
  ruleIdPad : nat;
  fileMessages : list OnlyLineColMessage;
}.

Section Format.
Context `{Externals}.

Definition BG_COLORS (s : MessageSeverity) : bool → string → string :=
  match s with warn => bgYellow | error => bgRed end.

Definition COLORS (s : MessageSeverity) : bool → string → string :=
  match s with warn => yellow | error => red end.

Definition SEVERITY_NAMES (s : MessageSeverity) : string :=
  match s with warn => "Warning" | error => "Error" end.

Definition MAX_SUGGEST : Z := 5.

Definition severityToNumber (s : MessageSeverity) : Z :=
  if decide (s = error) then 1 else 2.

(** [`${loc.start.line}:${loc.start.col}`] *)
Definition lineCol (loc : LineColLocationObject) : string :=
  num (line (start loc)) +:+ ":" +:+ num (col (start loc)).

Definition formatFrom (enabled : bool) (cwd : string)
    (location : option LocationObject) : string :=
  match location with
  | None => ""
  | Some location =>
      let relativePath := path_relative cwd (absoluteRef (source location)) in
      let loc := getLineColLocation location in
      let fileWithLoc := relativePath +:+ ":" +:+ lineCol loc in
      "referenced from " +:+ blue enabled fileWithLoc +:+ LF +:+ LF
  end.

Definition formatDidYouMean {L} (msg : ReportMessage L) : string :=
  if (length (suggest msg) =? 0)%nat then ""
  else if (length (suggest msg) =? 1)%nat then
    "Did you mean: " +:+ default "undefined" (suggest msg !! 0%nat)
      +:+ " ?" +:+ LF +:+ LF
  else
    "Did you mean:" +:+ LF +:+ "  - "
      +:+ String.concat (LF +:+ "  - ") (slice (suggest msg) 0 MAX_SUGGEST)
      +:+ LF +:+ LF.

(** The closure [fullFormatMessage] of [formatMessages]; [color] and [cwd]
    are the variables it captures.  [message.location[0]] of an empty list is
    [undefined], whose [source] cannot be read. *)
Definition fullFormatMessage (enabled color : bool) (cwd : string)
    (msg : NormalizedReportMessage) (idx : nat) : Completion string :=
  let bgColor := BG_COLORS (severity msg) in
  match location msg !! 0%nat with
  | None => Throw TypeError
  | Some location =>
      let relativePath := path_relative cwd (absoluteRef (source location)) in
      let loc := getLineColLocation location in
      let atPointer :=
        match pointer location with
        | Some p => if decide (p = "") then "" else gray enabled ("at " +:+ p)
        | None => ""
        end in
      let fileWithLoc := relativePath +:+ ":" +:+ lineCol loc in
      Normal
        ("[" +:+ num (Z.of_nat idx + 1) +:+ "] " +:+ bgColor enabled fileWithLoc
           +:+ " " +:+ atPointer +:+ LF +:+ LF
         +:+ (message msg +:+ LF +:+ LF)
         +:+ formatDidYouMean msg
         +:+ getCodeframe loc color
         +:+ (LF +:+ LF)
         +:+ formatFrom enabled cwd (from msg)
         +:+ (SEVERITY_NAMES (severity msg) +:+ " was generated by the "
                +:+ blue enabled (ruleId msg) +:+ " rule." +:+ LF +:+ LF))
  end.

Definition shortFormatMessage (enabled : bool) (msg : OnlyLineColMessage)
    (locationPad ruleIdPad : nat) : Completion string :=
  let color := COLORS (severity msg) in
  match location msg !! 0%nat with
  | None => Throw TypeError
  | Some loc0 =>
      Normal
        ("  " +:+ padEnd (lineCol loc0) (locationPad + 2) +:+ " "
           +:+ color enabled (padEnd (ruleId msg) ruleIdPad) +:+ " "
           +:+ message msg)
  end.

(** [{ ...message, location: message.location.map(getLineColLocation) }] *)
Definition mappedMessage (msg : NormalizedReportMessage) : OnlyLineColMessage :=
  {| severity := severity msg; message := message msg; ruleId := ruleId msg;
     suggest := suggest msg; ignored := ignored msg;
     location := getLineColLocation <$> location msg; from := from msg |}.

(** One turn of the loop of [groupByFiles].  A key inherited from
    [Object.prototype] reads as a truthy value without [fileMessages], on
    which [push] cannot be called. *)
Definition groupByFiles_body (fileGroups : list (string * FileGroup))
    (msg : NormalizedReportMessage) : Completion (list (string * FileGroup)) :=
  match location msg !! 0%nat with
  | None => Throw TypeError
  | Some location0 =>
      let absoluteRef := absoluteRef (source location0) in
      group ←
        match own_get fileGroups absoluteRef with
        | Some group => Normal group
        | None =>
            if Object_prototype_has absoluteRef then Throw TypeError
            else Normal {| fileMessages := []; ruleIdPad := 0; locationPad := 0 |}
        end;
      let mapped := mappedMessage msg in
      Normal
        (own_set fileGroups absoluteRef
           {| fileMessages := fileMessages group ++ [mapped];
              ruleIdPad := String.length (ruleId msg) `max` ruleIdPad group;
              locationPad :=
                max_list ((λ loc, String.length (lineCol loc)) <$> location mapped)
                  `max` locationPad group |})
  end.

Fixpoint groupByFiles_loop (fileGroups : list (string * FileGroup))
    (elems : list ref) : M (list (string * FileGroup)) :=
  match elems with
  | [] => mret fileGroups
  | r :: elems' =>
      msg ← readObject r;
      fileGroups ← lift (groupByFiles_body fileGroups msg);
      groupByFiles_loop fileGroups elems'
  end.

Definition groupByFiles (messages : ref) : M (list (string * FileGroup)) :=
  elems ← readArray messages;
  groupByFiles_loop [] elems.

(** Lines 53-55: the total, the array without the ignored messages, and the
    number of ignored messages. *)
Definition countAndFilter (messages : ref) : M (Z * ref * Z) :=
  totalMessages ← Array_length messages;
  messages ← Array_filter (λ m, negb (truthy (ignored m))) messages;
  remaining ← Array_length messages;
  mret (totalMessages, messages, totalMessages - remaining).

(** Lines 57-59. *)
Definition sortAndTruncate (messages : ref) (maxMessages : Z) : M ref :=
  sorted ←
    Array_sort (λ a b, severityToNumber (severity a) - severityToNumber (severity b))
      messages;
  Array_slice sorted 0 maxMessages.

(** Lines 63-82: the two layouts. *)
Definition renderMessages (format : OutputFormat) (color : bool) (cwd : string)
    (messages : ref) : M unit :=
  match format with
  | codeframe =>
      elems ← readArray messages;
      for_each
        (λ i r,
           msg ← readObject r;
           enabled ← getColorEnabled;
           text ← lift (fullFormatMessage enabled color cwd msg i);
           stderr_write (text +:+ LF))
        0 elems
  | stylish =>
      groupedByFile ← groupByFiles messages;
      for_each
        (λ _ entry,
           let file := entry.1 in
           let positionPad := locationPad entry.2 in
           enabled ← getColorEnabled;
           stderr_write (blue enabled (path_relative cwd file) +:+ ":" +:+ LF);;
           for_each
             (λ _ msg,
                enabled ← getColorEnabled;
                text ← lift (shortFormatMessage enabled msg positionPad
                               (ruleIdPad entry.2));
                stderr_write (text +:+ LF))
             0 (fileMessages entry.2);;
           stderr_write LF)
        0 (Object_entries groupedByFile)
  end.

(** Lines 84-90. *)
Definition truncationNotice (enabled : bool) (totalMessages maxMessages : Z)
    : string :=
  "< ... " +:+ num (totalMessages - maxMessages) +:+ " more messages hidden > "
    +:+ gray enabled "increase with `--max-messages N`" +:+ LF.

Definition formatMessages (messages : ref) (opts : Options) : M unit :=
  ambient ← getColorEnabled;
  let maxMessages := default 100 (maxMessages opts) in
  let cwd := default process_cwd (cwd opts) in
  let format := default codeframe (format opts) in
  let color := default ambient (color opts) in
  setColorEnabled color;;
  '(totalMessages, messages, ignoredMessages) ← countAndFilter messages;
  messages ← sortAndTruncate messages maxMessages;
  if totalMessages =? 0 then mret tt
  else
    renderMessages format color cwd messages;;
    if maxMessages <? totalMessages - ignoredMessages then
      enabled ← getColorEnabled;
      stderr_write (truncationNotice enabled totalMessages maxMessages)
    else mret tt.

End Format.

(** * Vocabulary of the statements *)

Section Vocabulary.
Context `{Externals}.

(** [points w rms]: every reference of [rms] leads, in [w], to the message
    object paired with it. *)
Definition points (w : World) (rms : list (nat * NormalizedReportMessage)) : Prop :=
  Forall (λ rm, objects w !! rm.1 = Some rm.2) rms.

(** [holds w arr rms]: [arr] is an array of [w] whose elements are the
    references of [rms], in this order, leading to the objects of [rms]. *)
Definition holds (w : World) (arr : nat)
    (rms : list (nat * NormalizedReportMessage)) : Prop :=
  arrays w !! arr = Some rms.*1 ∧ points w rms.

(** The messages that pass [(m) => !m.ignored]. *)
Definition notIgnored (rms : list (nat * NormalizedReportMessage)) :=
  filter (λ ro, negb (truthy (ignored ro.2)) = true) rms.

(** The messages in the order [sort] leaves them. *)
Definition bySeverity (rms : list (nat * NormalizedReportMessage)) :=
  stable_sort
    (λ a b, severityToNumber (severity a.2) - severityToNumber (severity b.2)) rms.

(** The messages [formatMessages] renders. *)
Definition visibleMessages (rms : list (nat * NormalizedReportMessage))
    (maxMessages : Z) : list (nat * NormalizedReportMessage) :=
  slice (bySeverity (notIgnored rms)) 0 maxMessages.

(** The file of a message: [message.location[0].source.absoluteRef]. *)
Definition primaryFile {L} (src : L → Source) (msg : ReportMessage L) : option string :=
  (absoluteRef ∘ src) <$> location msg !! 0%nat.

(** A message that [groupByFiles] can file: it has a first location, whose
    file name is not a member of [Object.prototype]. *)
Definition groupable (msg : NormalizedReportMessage) : Prop :=
  ∃ file, primaryFile source msg = Some file ∧ Object_prototype_has file = false.

(** A message whose file is an ordinary key of [fileGroups]. *)
Definition filed (msg : NormalizedReportMessage) : Prop :=
  ∃ file, primaryFile source msg = Some file
          ∧ Object_prototype_has file = false ∧ array_index file = None.

(** The files of a list, each once, in the order of their first occurrence. *)
Fixpoint first_seen (files : list string) : list string :=
  match files with
  | [] => []
  | f :: files' => f :: filter (λ g, g ≠ f) (first_seen files')
  end.

(** The group built from the messages of one file. *)
Definition group_of (msgs : list OnlyLineColMessage) : FileGroup :=
  {| fileMessages := msgs;
     ruleIdPad := max_list ((λ m, String.length (ruleId m)) <$> msgs);
     locationPad :=
       max_list ((λ loc, String.length (lineCol loc))
                   <$> mjoin (location <$> msgs)) |}.

Definition filed_under (file : string) (msgs : list NormalizedReportMessage)
    : list NormalizedReportMessage :=
  filter (λ m, primaryFile source m = Some file) msgs.

Definition groups_of (msgs : list NormalizedReportMessage)
    : list (string * FileGroup) :=
  (λ file, (file, group_of (mappedMessage <$> filed_under file msgs)))
    <$> first_seen (omap (primaryFile source) msgs).

(** The loop of [groupByFiles] over the objects the references lead to. *)
Fixpoint group_all (fileGroups : list (string * FileGroup))
    (msgs : list NormalizedReportMessage) : Completion (list (string * FileGroup)) :=
  match msgs with
  | [] => Normal fileGroups
  | msg :: msgs' =>
      fileGroups ← groupByFiles_body fileGroups msg; group_all fileGroups msgs'
  end.

(** The world after [out] has been written to the diagnostic stream. *)
Definition add_stderr (out : list string) (w : World) : World :=
  {| arrays := arrays w; objects := objects w;
     colorEnabled := colorEnabled w; stderr := stderr w ++ out |}.

(** What the layout needs of a message so as not to throw. *)
Definition renderable (format : OutputFormat) (msg : NormalizedReportMessage)
    : Prop :=
  match format with
  | codeframe => is_Some (location msg !! 0%nat)
  | stylish => groupable msg
  end.

(** [evolves written w w']: from [w] to [w'] the arrays outside [written]
    kept their elements, the message objects are the same, and so is the
    colour toggle. *)
Definition evolves (written : nat → Prop) (w w' : World) : Prop :=
  (∀ arr elems, ¬ written arr →
     arrays w !! arr = Some elems → arrays w' !! arr = Some elems)
  ∧ objects w' = objects w
  ∧ colorEnabled w' = colorEnabled w.

Definition preserves {A} (written : nat → Prop) (m : M A) : Prop :=
  ∀ w, evolves written w (m w).2.

(** One line [  - s] for each suggestion. *)
Definition bulleted (suggestions : list string) : string :=
  String.concat "" ((λ s, "  - " +:+ s +:+ LF) <$> suggestions).

(** [needle] occurs in [hay]. *)
Fixpoint occurs (needle hay : string) : bool :=
  String.prefix needle hay
  || match hay with
     | EmptyString => false
     | String _ hay' => occurs needle hay'
     end.

(** The message with another list of locations. *)
Definition withLocation {L L'} (locations : list L') (msg : ReportMessage L)
    : ReportMessage L' :=
  {| severity := severity msg; message := message msg; ruleId := ruleId msg;
     suggest := suggest msg; ignored := ignored msg;
     location := locations; from := from msg |}.

(** The elements of a list with their positions, counted from [i]. *)
Fixpoint numbered {A} (i : nat) (l : list A) : list (nat * A) :=
  match l with
  | [] => []
  | x :: l' => (i, x) :: numbered (S i) l'
  end.

(** The texts of the codeframe layout: [fullFormatMessage(messages[i], i)]
    for each message, in order. *)
Definition codeframeTexts (enabled color : bool) (cwd : string)
    (msgs : list NormalizedReportMessage) : Completion (list string) :=
  mapM (λ im, fullFormatMessage enabled color cwd im.2 im.1) (numbered 0 msgs).

(** What the stylish layout writes for one entry of [groupedByFile]: the
    file header, one line for each message, and a blank line. *)
Definition stylishBlock (enabled : bool) (cwd : string)
    (entry : string * FileGroup) : Completion (list string) :=
  texts ←
    mapM (λ msg, shortFormatMessage enabled msg
                   (locationPad entry.2) (ruleIdPad entry.2))
      (fileMessages entry.2);
  mret ((blue enabled (path_relative cwd entry.1) +:+ ":" +:+ LF)
          :: ((λ text, text +:+ LF) <$> texts) ++ [LF]).

End Vocabulary.

(** * A concrete run

    Stand-ins for the collaborators (no colours, paths left as they are,
    every location resolved to line 2, column 3, no code frame) and a world
    with the message of the specification's scenario A, an error with two
    locations, and an ignored copy of the first message. *)

#[global] Instance terminal : Externals := {|
  getLineColLocation := λ l, {| resolved := l; start := {| line := 2; col := 3 |} |};
  getCodeframe := λ _ _, "";
  path_relative := λ _ p, p;
  process_cwd := "/";
  gray := λ _ s, s;
  blue := λ _ s, s;
  bgRed := λ _ s, s;
  bgYellow := λ _ s, s;
  yellow := λ _ s, s;
  red := λ _ s, s;
|}.

Definition inFile (file : string) : LocationObject :=
  {| source := {| absoluteRef := file |}; pointer := None |}.

Definition noFoo : NormalizedReportMessage :=
  {| severity := warn; message := "bad foo"; ruleId := "no-foo";
     suggest := []; ignored := None;
     location := [inFile "/a.yaml"]; from := None |}.

Definition noBar : NormalizedReportMessage :=
  {| severity := error; message := "bad bar"; ruleId := "no-bar-here";
     suggest := ["a"; "b"; "c"; "d"; "e"; "f"]; ignored := None;
     location := [inFile "/b.yaml"; inFile "/c.yaml"]; from := None |}.

Definition noFooIgnored : NormalizedReportMessage :=
  {| severity := warn; message := "bad foo"; ruleId := "no-foo";
     suggest := []; ignored := Some true;
     location := [inFile "/a.yaml"]; from := None |}.

Definition reported : list (nat * NormalizedReportMessage) :=
  [(10, noFoo); (11, noBar); (12, noFooIgnored)]%nat.

Definition world : World :=
  {| arrays := {[ 0%nat := [10; 11; 12]%nat ]};
     objects := {[ 10%nat := noFoo; 11%nat := noBar; 12%nat := noFooIgnored ]};
     colorEnabled := false;
     stderr := [] |}.

(** Scenario B: a world whose only message is ignored. *)
Definition ignoredOnly : World :=
  {| arrays := {[ 0%nat := [12]%nat ]};
     objects := {[ 12%nat := noFooIgnored ]};
     colorEnabled := true;
     stderr := [] |}.

(** A world with an error and, after it, a warning without any location. *)
Definition noFooUnlocated : NormalizedReportMessage := withLocation [] noFoo.

Definition unlocatedReported : list (nat * NormalizedReportMessage) :=
  [(13, noFooUnlocated); (11, noBar)]%nat.

Definition unlocatedWorld : World :=
  {| arrays := {[ 0%nat := [13; 11]%nat ]};
     objects := {[ 11%nat := noBar; 13%nat := noFooUnlocated ]};
     colorEnabled := false;
     stderr := [] |}.

(** A world where one file has a warning, an error whose second location is
    in a file with a longer name, and another warning, in this order, next to
    an ignored message and an error of another file. *)
Definition noBaz : NormalizedReportMessage :=
  {| severity := error; message := "bad baz"; ruleId := "no-baz-at-all";
     suggest := []; ignored := None;
     location := [inFile "/a.yaml"; inFile "/elsewhere/definitions.yaml"];
     from := None |}.

Definition noQux : NormalizedReportMessage :=
  {| severity := warn; message := "bad qux"; ruleId := "no-qux";
     suggest := []; ignored := None;
     location := [inFile "/a.yaml"]; from := None |}.

Definition mixedReported : list (nat * NormalizedReportMessage) :=
  [(20, noFoo); (21, noBaz); (22, noFooIgnored); (23, noQux); (24, noBar)]%nat.

Definition mixedWorld : World :=
  {| arrays := {[ 0%nat := [20; 21; 22; 23; 24]%nat ]};
     objects := {[ 20%nat := noFoo; 21%nat := noBaz; 22%nat := noFooIgnored;
                   23%nat := noQux; 24%nat := noBar ]};
     colorEnabled := false;
     stderr := [] |}.

(** Stand-ins that resolve a location to a line as long as the name of its
    file, so that positions differ in width. *)
Definition measuring : Externals := {|
  getLineColLocation := λ l,
    {| resolved := l;
       start := {| line := Z.of_nat (String.length (absoluteRef (source l)));
                   col := 3 |} |};
  getCodeframe := λ _ _, "";
  path_relative := λ _ p, p;
  process_cwd := "/";
  gray := λ _ s, s;
  blue := λ _ s, s;
  bgRed := λ _ s, s;
  bgYellow := λ _ s, s;
  yellow := λ _ s, s;
  red := λ _ s, s;
|}.

Definition stylishOpts (maxMessages : Z) : Options :=
  {| maxMessages := Some maxMessages; cwd := None;
     format := Some stylish; color := None |}.

Definition codeframeOpts (maxMessages : Z) : Options :=
  {| maxMessages := Some maxMessages; cwd := None;
     format := None; color := None |}.

(** * Properties *)

(** ** Running monadic code *)

Lemma bind_run {A B} (m : M A) (f : A → M B) w a w1 :
  m w = (Normal a, w1) → (m ≫= f) w = f a w1.
Proof. intros Hm. unfold mbind, M_bind. by rewrite Hm. Qed.

Lemma bind_throw {A B} (m : M A) (f : A → M B) w e w1 :
  m w = (Throw e, w1) → (m ≫= f) w = (Throw e, w1).
Proof. intros Hm. unfold mbind, M_bind. by rewrite Hm. Qed.

Lemma readArray_run w arr rms :
  holds w arr rms → readArray arr w = (Normal rms.*1, w).
Proof. intros [Ha _]. unfold readArray. by rewrite Ha. Qed.

Lemma readObjects_run w rms :
  points w rms → mapM readObject rms.*1 w = (Normal rms.*2, w).
Proof.
  induction 1 as [|[r o] rms Hr _ IH]; [done|].
  cbn [fmap list_fmap mapM fst snd] in *.
  erewrite bind_run; [|unfold readObject; by rewrite Hr].
  erewrite bind_run; [|exact IH]. done.
Qed.

Lemma points_sublist w rms rms' :
  rms' ⊆ rms → points w rms → points w rms'.
Proof.
  unfold points. rewrite !Forall_forall. intros Hsub Hall rm Hin.
  apply Hall, Hsub, Hin.
Qed.

Lemma newArray_run w elems :
  newArray elems w
  = (Normal (fresh (dom (arrays w))),
     set_arrays (<[fresh (dom (arrays w)) := elems]> (arrays w)) w).
Proof. done. Qed.

Lemma fresh_array_None w : arrays w !! fresh (dom (arrays w)) = None.
Proof. apply not_elem_of_dom, is_fresh. Qed.

Lemma Array_length_run w arr rms :
  holds w arr rms → Array_length arr w = (Normal (Z.of_nat (length rms)), w).
Proof.
  intros Hh. unfold Array_length.
  erewrite bind_run; [|by apply readArray_run]. by rewrite length_fmap.
Qed.

Lemma Array_filter_run callbackFn w arr rms :
  holds w arr rms →
  let kept := filter (λ ro, callbackFn ro.2 = true) rms in
  let arr' := fresh (dom (arrays w)) in
  Array_filter callbackFn arr w
  = (Normal arr', set_arrays (<[arr' := kept.*1]> (arrays w)) w).
Proof.
  intros Hh kept arr'. unfold Array_filter.
  erewrite bind_run; [|by apply readArray_run].
  erewrite bind_run; [|apply readObjects_run, Hh].
  by rewrite zip_fst_snd.
Qed.

Lemma Array_sort_run compareFn w arr rms :
  holds w arr rms →
  Array_sort compareFn arr w
  = (Normal arr,
     set_arrays
       (<[arr := (stable_sort (λ a b, compareFn a.2 b.2) rms).*1]> (arrays w)) w).
Proof.
  intros Hh. unfold Array_sort.
  erewrite bind_run; [|by apply readArray_run].
  erewrite bind_run; [|apply readObjects_run, Hh].
  rewrite zip_fst_snd.
  erewrite bind_run; [done|].
  unfold writeArray. destruct Hh as [-> _]. done.
Qed.

Lemma slice_fmap {A B} (f : A → B) (l : list A) start end_ :
  f <$> slice l start end_ = slice (f <$> l) start end_.
Proof. unfold slice. by rewrite fmap_take, fmap_drop, length_fmap. Qed.

Lemma Array_slice_run w arr rms start end_ :
  holds w arr rms →
  let arr' := fresh (dom (arrays w)) in
  Array_slice arr start end_ w
  = (Normal arr',
     set_arrays (<[arr' := (slice rms start end_).*1]> (arrays w)) w).
Proof.
  intros Hh arr'. unfold Array_slice.
  erewrite bind_run; [|by apply readArray_run].
  by rewrite slice_fmap.
Qed.

Lemma holds_insert w arr rms :
  points w rms → holds (set_arrays (<[arr := rms.*1]> (arrays w)) w) arr rms.
Proof. intros Hp. split; [apply lookup_insert_eq | done]. Qed.

(** ** Sorting by severity *)

Lemma sort_insert_severity {A} (sev : A → MessageSeverity) x (es ws : list A) :
  Forall (λ y, sev y = error) es →
  Forall (λ y, sev y ≠ error) ws →
  sort_insert (λ a b, severityToNumber (sev a) - severityToNumber (sev b)) x
    (es ++ ws)
  = if decide (sev x = error) then x :: es ++ ws else es ++ x :: ws.
Proof.
  intros Hes Hws. induction Hes as [|y es Hy _ IH]; simpl.
  - destruct Hws as [|y ws Hy _]; simpl; [by case_decide|].
    unfold severityToNumber. repeat case_decide; done.
  - rewrite IH. unfold severityToNumber. repeat case_decide; done.
Qed.

Lemma stable_sort_severity {A} (sev : A → MessageSeverity) (l : list A) :
  stable_sort (λ a b, severityToNumber (sev a) - severityToNumber (sev b)) l
  = filter (λ x, sev x = error) l ++ filter (λ x, sev x ≠ error) l.
Proof.
  induction l as [|x l IH]; [done|].
  unfold stable_sort in *. cbn [foldr]. rewrite IH.
  rewrite sort_insert_severity.
  - rewrite !filter_cons. case_decide; by repeat case_decide.
  - apply Forall_forall. intros y Hy. by apply list_elem_of_filter in Hy as [? _].
  - apply Forall_forall. intros y Hy. by apply list_elem_of_filter in Hy as [? _].
Qed.

Lemma not_error_warn (s : MessageSeverity) : s ≠ error ↔ s = warn.
Proof. destruct s; naive_solver. Qed.

Lemma slice_0 {A} (l : list A) end_ :
  slice l 0 end_ = take (Z.to_nat (relative_index (Z.of_nat (length l)) end_)) l.
Proof.
  unfold slice. replace (relative_index (Z.of_nat (length l)) 0) with 0.
  - by rewrite Z.sub_0_r.
  - unfold relative_index. simpl. lia.
Qed.

Lemma sort_insert_length {A} (compareFn : A → A → Z) x l :
  length (sort_insert compareFn x l) = S (length l).
Proof. induction l; simpl; [done|]. case_match; simpl; by rewrite ?IHl. Qed.

Lemma stable_sort_length {A} (compareFn : A → A → Z) l :
  length (stable_sort compareFn l) = length l.
Proof.
  induction l; [done|]. unfold stable_sort in *. cbn [foldr].
  by rewrite sort_insert_length, IHl.
Qed.

(** ** The filter and truncation steps *)

Lemma bySeverity_partition rms :
  bySeverity rms
  = filter (λ rm, severity rm.2 = error) rms
    ++ filter (λ rm, severity rm.2 ≠ error) rms.
Proof. apply (stable_sort_severity (λ rm, severity rm.2)). Qed.

Lemma bySeverity_subseteq rms : bySeverity rms ⊆ rms.
Proof.
  rewrite bySeverity_partition. intros rm.
  rewrite elem_of_app, !list_elem_of_filter. by intros [[_ ?]|[_ ?]].
Qed.

Lemma ignored_split rms :
  (length (filter (λ rm, ignored rm.2 = Some true) rms)
   + length (notIgnored rms) = length rms)%nat.
Proof.
  unfold notIgnored. induction rms as [|[r o] rms IH]; [done|].
  rewrite !filter_cons. cbn [snd].
  destruct (ignored o) as [[]|]; repeat case_decide; simplify_eq/=; lia.
Qed.

Lemma notIgnored_filter rms :
  notIgnored rms = filter (λ rm, ignored rm.2 ≠ Some true) rms.
Proof.
  unfold notIgnored. apply list_filter_iff. intros [r o]. cbn [snd].
  destruct (ignored o) as [[]|]; cbn; split; congruence.
Qed.

Lemma countAndFilter_run w messages rms :
  holds w messages rms →
  let filtered := fresh (dom (arrays w)) in
  let w1 := set_arrays (<[filtered := (notIgnored rms).*1]> (arrays w)) w in
  countAndFilter messages w
  = (Normal (Z.of_nat (length rms), filtered,
             Z.of_nat (length rms) - Z.of_nat (length (notIgnored rms))), w1)
  ∧ holds w1 filtered (notIgnored rms).
Proof.
  intros Hh filtered w1.
  assert (holds w1 filtered (notIgnored rms)) as Hh1.
  { apply holds_insert. eapply points_sublist; [|apply Hh].
    apply list_subseteq_filter. }
  split; [|done]. unfold countAndFilter.
  erewrite bind_run; [|by apply Array_length_run].
  erewrite bind_run; [|by apply Array_filter_run].
  erewrite bind_run; [|apply Array_length_run, Hh1]. done.
Qed.

Lemma sortAndTruncate_run w messages rms maxMessages :
  holds w messages rms →
  let shown := slice (bySeverity rms) 0 maxMessages in
  let h1 := <[messages := (bySeverity rms).*1]> (arrays w) in
  let visible := fresh (dom h1) in
  let w2 := set_arrays (<[visible := shown.*1]> h1) w in
  sortAndTruncate messages maxMessages w = (Normal visible, w2)
  ∧ holds w2 visible shown.
Proof.
  intros Hh shown h1 visible w2.
  assert (points w (bySeverity rms)) as Hp.
  { eapply points_sublist; [apply bySeverity_subseteq | apply Hh]. }
  split.
  - unfold sortAndTruncate.
    erewrite bind_run; [|by apply Array_sort_run].
    erewrite (Array_slice_run _ _ (bySeverity rms)); [done|].
    by apply holds_insert.
  - apply (holds_insert (set_arrays h1 w)).
    eapply points_sublist; [|exact Hp].
    unfold shown. rewrite slice_0. apply subseteq_take.
Qed.

(** C1: for every message array and every [maxMessages > 0], the number of
    ignored messages plus the number of messages left by the filter is the
    length of the input, where the ignored count is the number of messages
    whose [ignored] is true, and the array that is rendered has
    [min(maxMessages, totalMessages - ignoredMessages)] elements. *)
Theorem filter_truncate_counts w messages rms maxMessages :
  holds w messages rms →
  0 < maxMessages →
  ∃ totalMessages ignoredMessages filtered w1 kept visible w2 shown,
    countAndFilter messages w
      = (Normal (totalMessages, filtered, ignoredMessages), w1)
    ∧ holds w1 filtered kept
    ∧ sortAndTruncate filtered maxMessages w1 = (Normal visible, w2)
    ∧ holds w2 visible shown
    ∧ totalMessages = Z.of_nat (length rms)
    ∧ ignoredMessages
      = Z.of_nat (length (filter (λ rm, ignored rm.2 = Some true) rms))
    ∧ ignoredMessages + Z.of_nat (length kept) = totalMessages
    ∧ Z.of_nat (length shown) = Z.min maxMessages (totalMessages - ignoredMessages).
Proof.
  intros Hh Hmax.
  destruct (countAndFilter_run w messages rms Hh) as [Hrun1 Hh1].
  destruct (sortAndTruncate_run _ _ _ maxMessages Hh1) as [Hrun2 Hh2].
  pose proof (ignored_split rms) as Hsplit.
  eexists _, _, _, _, _, _, _, _.
  split; [exact Hrun1|]. split; [exact Hh1|].
  split; [exact Hrun2|]. split; [exact Hh2|].
  split; [done|]. split; [lia|]. split; [lia|].
  unfold bySeverity. rewrite slice_0, length_take, stable_sort_length.
  unfold relative_index. destruct (Z.ltb_spec maxMessages 0); lia.
Qed.

(** C2: the array that is rendered holds the messages the filter kept,
    sorted and cut: it is the first elements, as [slice(0, maxMessages)]
    takes them, of the errors of the filtered input followed by its warnings,
    each in the order they had there.  So every error comes before every
    warning, and the errors (the warnings) shown are the first errors
    (warnings) of the filtered input, in the order they had there. *)
Theorem severity_order_stable w messages rms maxMessages :
  holds w messages rms →
  ∃ totalMessages ignoredMessages filtered w1 kept visible w2 shown,
    countAndFilter messages w
      = (Normal (totalMessages, filtered, ignoredMessages), w1)
    ∧ holds w1 filtered kept
    ∧ sortAndTruncate filtered maxMessages w1 = (Normal visible, w2)
    ∧ holds w2 visible shown
    ∧ kept = filter (λ rm, ignored rm.2 ≠ Some true) rms
    ∧ shown
      = slice (filter (λ rm, severity rm.2 = error) kept
               ++ filter (λ rm, severity rm.2 = warn) kept) 0 maxMessages
    ∧ (Z.of_nat (length kept) ≤ maxMessages →
       shown = filter (λ rm, severity rm.2 = error) kept
               ++ filter (λ rm, severity rm.2 = warn) kept)
    ∧ ∃ errors warns,
        shown = errors ++ warns
        ∧ Forall (λ rm, severity rm.2 = error) errors
        ∧ Forall (λ rm, severity rm.2 = warn) warns
        ∧ errors `prefix_of` filter (λ rm, severity rm.2 = error) kept
        ∧ warns `prefix_of` filter (λ rm, severity rm.2 = warn) kept.
Proof.
  intros Hh.
  destruct (countAndFilter_run w messages rms Hh) as [Hrun1 Hh1].
  destruct (sortAndTruncate_run _ _ _ maxMessages Hh1) as [Hrun2 Hh2].
  eexists _, _, _, _, _, _, _, _.
  split; [exact Hrun1|]. split; [exact Hh1|].
  split; [exact Hrun2|]. split; [exact Hh2|].
  split; [apply notIgnored_filter|].
  rewrite bySeverity_partition.
  set (kept := notIgnored rms).
  assert (filter (λ rm : nat * NormalizedReportMessage, severity rm.2 ≠ error) kept
          = filter (λ rm, severity rm.2 = warn) kept) as ->.
  { apply list_filter_iff. intros rm. apply not_error_warn. }
  split; [done|]. split.
  { intros Hfits. rewrite slice_0. apply take_ge.
    pose proof (bySeverity_partition kept) as Hpart.
    apply (f_equal length) in Hpart. unfold bySeverity in Hpart.
    rewrite stable_sort_length in Hpart.
    rewrite (list_filter_iff (λ rm : nat * NormalizedReportMessage,
                                severity rm.2 ≠ error)
               (λ rm, severity rm.2 = warn)) in Hpart
      by (intros rm; apply not_error_warn).
    rewrite <-Hpart. unfold relative_index.
    destruct (Z.ltb_spec maxMessages 0); lia. }
  rewrite slice_0. set (n := Z.to_nat _). clearbody n.
  rewrite take_app.
  eexists _, _. split; [done|].
  split; [|split; [|split]].
  - apply Forall_take, Forall_forall. intros rm Hin.
    by apply list_elem_of_filter in Hin as [? _].
  - apply Forall_take, Forall_forall. intros rm Hin.
    by apply list_elem_of_filter in Hin as [? _].
  - apply prefix_take.
  - apply prefix_take.
Qed.

(** ** Grouping by file *)

Section Grouping.
Context `{Externals}.

Lemma groupByFiles_loop_run w rms fileGroups :
  points w rms →
  groupByFiles_loop fileGroups rms.*1 w = (group_all fileGroups rms.*2, w).
Proof.
  intros Hp. revert fileGroups.
  induction Hp as [|[r o] rms Hr _ IH]; intros fileGroups; [done|].
  cbn [fmap list_fmap groupByFiles_loop group_all fst snd] in *.
  erewrite bind_run; [|unfold readObject; by rewrite Hr].
  destruct (groupByFiles_body fileGroups o) as [fileGroups'|e] eqn:Hbody.
  - erewrite bind_run; [|done]. apply IH.
  - erewrite bind_throw; done.
Qed.

Lemma max_list_app (l k : list nat) :
  max_list (l ++ k) = (max_list l `max` max_list k)%nat.
Proof. induction l; simpl; lia. Qed.

Lemma first_seen_elem_of (f : string) files : f ∈ first_seen files ↔ f ∈ files.
Proof.
  induction files as [|g files IH]; [done|]. cbn [first_seen].
  rewrite !elem_of_cons, list_elem_of_filter, IH.
  destruct (decide (f = g)); tauto.
Qed.

Lemma first_seen_snoc files (f : string) :
  first_seen (files ++ [f])
  = if decide (f ∈ files) then first_seen files else first_seen files ++ [f].
Proof.
  induction files as [|g files IH]; [done|].
  cbn [app first_seen]. rewrite IH.
  destruct (decide (f = g)) as [->|Hne].
  - rewrite (decide_True (P := g ∈ g :: files)) by left. case_decide; [done|].
    rewrite filter_app, filter_singleton_False; [by rewrite app_nil_r|done|tauto].
  - destruct (decide (f ∈ files)) as [Hin|Hin].
    + rewrite decide_True; [done|by right].
    + rewrite decide_False.
      * rewrite filter_app, filter_singleton_True; done.
      * rewrite elem_of_cons. tauto.
Qed.

Lemma first_seen_NoDup files : NoDup (first_seen files).
Proof.
  induction files as [|g files IH]; cbn [first_seen]; [constructor|].
  constructor; [|by apply NoDup_filter].
  rewrite list_elem_of_filter. tauto.
Qed.

Lemma own_get_fmap {V} (g : string → V) (files : list string) k :
  own_get ((λ f, (f, g f)) <$> files) k
  = if decide (k ∈ files) then Some (g k) else None.
Proof.
  induction files as [|f files IH]; [done|].
  cbn [fmap list_fmap own_get]. fold (fmap (M:=list) (λ f, (f, g f)) files).
  destruct (decide (f = k)) as [->|Hne].
  - by rewrite decide_True by left.
  - rewrite IH. destruct (decide (k ∈ files)) as [Hin|Hin].
    + rewrite decide_True; [done|by right].
    + rewrite decide_False; [done|]. rewrite elem_of_cons. intros [?|?]; done.
Qed.

Lemma own_set_fmap {V} (g g' : string → V) (files : list string) k v :
  NoDup files →
  g' k = v → (∀ f, f ≠ k → g' f = g f) →
  own_set ((λ f, (f, g f)) <$> files) k v
  = if decide (k ∈ files) then (λ f, (f, g' f)) <$> files
    else ((λ f, (f, g' f)) <$> files) ++ [(k, v)].
Proof.
  intros Hnd Hk Hother. induction Hnd as [|f files Hnotin _ IH].
  { rewrite decide_False; [done|apply not_elem_of_nil]. }
  cbn [fmap list_fmap own_set].
  fold (fmap (M:=list) (λ f, (f, g f)) files).
  fold (fmap (M:=list) (λ f, (f, g' f)) files).
  destruct (decide (f = k)) as [->|Hne].
  - rewrite decide_True by left. rewrite Hk. f_equal.
    apply Forall_fmap_ext_1, Forall_forall. intros f Hf.
    rewrite Hother; [done|]. by intros ->.
  - rewrite IH, Hother by done. destruct (decide (k ∈ files)) as [Hin|Hin].
    + rewrite decide_True; [done|by right].
    + rewrite decide_False; [done|]. rewrite elem_of_cons. intros [?|?]; done.
Qed.

End Grouping.

Section GroupingRun.
Context `{Externals}.

Lemma group_of_snoc msgs (x : OnlyLineColMessage) :
  group_of (msgs ++ [x])
  = {| fileMessages := msgs ++ [x];
       ruleIdPad := String.length (ruleId x) `max` ruleIdPad (group_of msgs);
       locationPad :=
         max_list ((λ loc, String.length (lineCol loc)) <$> location x)
           `max` locationPad (group_of msgs) |}.
Proof.
  unfold group_of. cbn [ruleIdPad locationPad].
  rewrite !fmap_app, join_app, fmap_app, !max_list_app.
  assert (mjoin (location <$> [x]) = location x) as -> by apply app_nil_r.
  f_equal; simpl; lia.
Qed.

Lemma filed_under_snoc file msgs (msg : NormalizedReportMessage) :
  filed_under file (msgs ++ [msg])
  = if decide (primaryFile source msg = Some file)
    then filed_under file msgs ++ [msg] else filed_under file msgs.
Proof.
  unfold filed_under. rewrite filter_app, filter_cons, filter_nil.
  case_decide; [done|apply app_nil_r].
Qed.

Lemma filed_under_unseen file msgs :
  file ∉ omap (primaryFile source) msgs → filed_under file msgs = [].
Proof.
  intros Hnotin. unfold filed_under.
  induction msgs as [|msg msgs IH]; [done|].
  rewrite filter_cons. cbn [omap list_omap] in Hnotin.
  fold (omap (M:=list) (primaryFile source) msgs) in Hnotin.
  case_decide as Hfile.
  - rewrite Hfile in Hnotin. exfalso. apply Hnotin. left.
  - apply IH. intros Hin. apply Hnotin.
    destruct (primaryFile source msg); [by right|done].
Qed.

Lemma groups_of_get msgs file :
  own_get (groups_of msgs) file
  = if decide (file ∈ omap (primaryFile source) msgs)
    then Some (group_of (mappedMessage <$> filed_under file msgs)) else None.
Proof.
  unfold groups_of.
  rewrite (own_get_fmap (λ f, group_of (mappedMessage <$> filed_under f msgs))).
  pose proof (first_seen_elem_of file (omap (primaryFile source) msgs)).
  repeat case_decide; tauto.
Qed.

Lemma groups_of_set msgs msg file :
  primaryFile source msg = Some file →
  own_set (groups_of msgs) file
    (group_of (mappedMessage <$> filed_under file (msgs ++ [msg])))
  = groups_of (msgs ++ [msg]).
Proof.
  intros Hfile. unfold groups_of.
  rewrite (own_set_fmap
             (λ f, group_of (mappedMessage <$> filed_under f msgs))
             (λ f, group_of (mappedMessage <$> filed_under f (msgs ++ [msg])))).
  - rewrite omap_app. cbn [omap list_omap]. rewrite Hfile, first_seen_snoc.
    pose proof (first_seen_elem_of file (omap (primaryFile source) msgs)).
    repeat case_decide; try tauto. by rewrite fmap_app.
  - apply first_seen_NoDup.
  - done.
  - intros f Hf. rewrite filed_under_snoc, decide_False; [done|congruence].
Qed.

(** One turn of the loop files the message under its file, after the
    messages filed there before, and creates the group at its first message. *)
Lemma groupByFiles_body_groups_of msgs msg :
  groupable msg →
  groupByFiles_body (groups_of msgs) msg = Normal (groups_of (msgs ++ [msg])).
Proof.
  intros (file & Hfile & Hproto).
  assert (∃ location0, location msg !! 0%nat = Some location0
                       ∧ absoluteRef (source location0) = file)
    as (location0 & Hloc & Href).
  { unfold primaryFile in Hfile.
    destruct (location msg !! 0%nat) as [l0|]; simplify_eq/=. eauto. }
  unfold groupByFiles_body. rewrite Hloc, Href, groups_of_get.
  rewrite <-(groups_of_set msgs msg file Hfile).
  rewrite filed_under_snoc.
  rewrite (decide_True (P := primaryFile source msg = Some file)) by done.
  rewrite fmap_app. cbn [fmap list_fmap]. rewrite group_of_snoc.
  case_decide as Hin; [done|]. rewrite Hproto.
  by rewrite (filed_under_unseen file msgs).
Qed.

Lemma group_all_groups_of before msgs :
  Forall groupable msgs →
  group_all (groups_of before) msgs = Normal (groups_of (before ++ msgs)).
Proof.
  intros Hall. revert before.
  induction Hall as [|msg msgs Hmsg _ IH]; intros before.
  - by rewrite app_nil_r.
  - cbn [group_all]. rewrite groupByFiles_body_groups_of by done.
    cbn [mbind Completion_bind]. rewrite IH. by rewrite <-app_assoc.
Qed.

Lemma groupByFiles_run w messages rms :
  holds w messages rms →
  Forall groupable rms.*2 →
  groupByFiles messages w = (Normal (groups_of rms.*2), w).
Proof.
  intros Hh Hall. unfold groupByFiles.
  erewrite bind_run; [|by apply readArray_run].
  rewrite groupByFiles_loop_run by apply Hh.
  by rewrite (group_all_groups_of []).
Qed.

End GroupingRun.

Lemma sort_insert_Permutation {A} (compareFn : A → A → Z) x l :
  sort_insert compareFn x l ≡ₚ x :: l.
Proof.
  induction l as [|y l IH]; simpl; [done|].
  case_match; [|done]. rewrite IH. apply Permutation_swap.
Qed.

Lemma stable_sort_Permutation {A} (compareFn : A → A → Z) l :
  stable_sort compareFn l ≡ₚ l.
Proof.
  induction l as [|x l IH]; [done|]. unfold stable_sort in *. cbn [foldr].
  by rewrite sort_insert_Permutation, IH.
Qed.

Lemma Object_entries_subseteq {V} (o : list (string * V)) : Object_entries o ⊆ o.
Proof.
  intros kv. unfold Object_entries.
  rewrite elem_of_app, stable_sort_Permutation, !list_elem_of_filter. tauto.
Qed.

(** An object without array-index keys lists its entries in creation order. *)
Lemma Object_entries_creation_order {V} (o : list (string * V)) :
  Forall (λ kv, array_index kv.1 = None) o → Object_entries o = o.
Proof.
  intros Hall. unfold Object_entries.
  assert (filter (λ kv : string * V, is_Some (array_index kv.1)) o = []) as ->.
  { induction Hall as [|kv o Hkv _ IH]; [done|].
    rewrite filter_cons_False; [done|]. rewrite Hkv. by intros [? ?]. }
  cbn [stable_sort foldr app].
  induction Hall as [|kv o Hkv _ IH]; [done|].
  rewrite filter_cons_True by done. by rewrite IH.
Qed.

(** A message whose first location lies in a file named by an absolute path
    is filed under an ordinary key: such a name is neither an array index nor
    a member of [Object.prototype]. *)
Lemma absolute_path_filed (msg : NormalizedReportMessage) location0 path :
  location msg !! 0%nat = Some location0 →
  absoluteRef (source location0) = String "/" path →
  filed msg.
Proof.
  intros Hloc Href. exists (String "/" path).
  split; [unfold primaryFile; rewrite Hloc; cbn; by rewrite Href|].
  split; [|done]. apply bool_decide_eq_false. unfold Object_prototype_keys.
  rewrite !elem_of_cons, elem_of_nil. intros Hin.
  repeat (destruct Hin as [Hin|Hin]; [discriminate Hin|]). done.
Qed.

Section GroupingClaims.
Context `{Externals}.

Lemma filed_groupable msg : filed msg → groupable msg.
Proof. intros (file & ? & ? & ?). by exists file. Qed.

Lemma mappedMessage_locations (msgs : list NormalizedReportMessage) :
  mjoin (location <$> (mappedMessage <$> msgs))
  = getLineColLocation <$> mjoin (location <$> msgs).
Proof.
  induction msgs as [|msg msgs IH]; [done|].
  rewrite !fmap_cons.
  change (location (mappedMessage msg)
          ++ mjoin (location <$> (mappedMessage <$> msgs))
          = getLineColLocation <$> (location msg ++ mjoin (location <$> msgs))).
  by rewrite IH, fmap_app.
Qed.

(** C7: every message given to the file grouper has a group, that of the
    file of its first location; in every group the grouper produces,
    [ruleIdPad] is the largest length of a rule id among the messages of the
    input filed under the file of the group, and [locationPad] the largest
    length of a rendered [line:col] among all the locations, the primary one
    and the others, of these messages.  The messages of the group are their
    re-shaped copies, so that the pads are these maxima over the group
    itself too. *)
Theorem pads_are_group_maxima w messages rms :
  holds w messages rms →
  Forall groupable rms.*2 →
  ∃ fileGroups,
    groupByFiles messages w = (Normal fileGroups, w)
    ∧ (∀ msg, msg ∈ rms.*2 →
         ∃ file group,
           primaryFile source msg = Some file ∧ (file, group) ∈ fileGroups)
    ∧ ∀ file group, (file, group) ∈ fileGroups →
        fileMessages group
        = mappedMessage
            <$> filter (λ m, primaryFile source m = Some file) rms.*2
        ∧ ruleIdPad group
          = max_list
              ((λ m : NormalizedReportMessage, String.length (ruleId m))
                 <$> filter (λ m, primaryFile source m = Some file) rms.*2)
        ∧ locationPad group
          = max_list
              ((λ l, String.length (lineCol (getLineColLocation l)))
                 <$> mjoin
                       (location
                          <$> filter (λ m, primaryFile source m = Some file)
                                rms.*2))
        ∧ ruleIdPad group
          = max_list ((λ m, String.length (ruleId m)) <$> fileMessages group)
        ∧ locationPad group
          = max_list ((λ loc, String.length (lineCol loc))
                        <$> mjoin (location <$> fileMessages group)).
Proof.
  intros Hh Hall. eexists. split; [by apply groupByFiles_run|]. split.
  - intros msg Hmsg. rewrite Forall_forall in Hall.
    destruct (Hall msg Hmsg) as (file & Hfile & _).
    exists file, (group_of (mappedMessage <$> filed_under file rms.*2)).
    split; [done|]. unfold groups_of.
    apply list_elem_of_fmap. exists file. split; [done|].
    apply first_seen_elem_of, list_elem_of_omap. by exists msg.
  - intros file group Hin. unfold groups_of in Hin.
    apply list_elem_of_fmap in Hin as (f & [= -> ->] & _).
    cbn [group_of fileMessages ruleIdPad locationPad]. fold (filed_under f rms.*2).
    split; [done|]. split; [by rewrite <-list_fmap_compose|].
    split; [|done].
    by rewrite mappedMessage_locations, <-list_fmap_compose.
Qed.

(** C8: every message goes to the group of the file of its first location,
    the messages of a group are those of the input filed under that file, in
    input order, and [Object.entries] lists the groups in the order in which
    their files first occur in the input. *)
Theorem groups_by_primary_file w messages rms :
  holds w messages rms →
  Forall filed rms.*2 →
  ∃ groupedByFile,
    groupByFiles messages w = (Normal groupedByFile, w)
    ∧ (Object_entries groupedByFile).*1
      = first_seen (omap (primaryFile source) rms.*2)
    ∧ length (omap (primaryFile source) rms.*2) = length rms
    ∧ ∀ file group, (file, group) ∈ Object_entries groupedByFile →
        fileMessages group
        = mappedMessage
            <$> filter (λ m, primaryFile source m = Some file) rms.*2.
Proof.
  intros Hh Hall. eexists. split.
  { apply groupByFiles_run; [done|].
    eapply Forall_impl; [exact Hall|apply filed_groupable]. }
  assert (Object_entries (groups_of rms.*2) = groups_of rms.*2) as ->.
  { apply Object_entries_creation_order, Forall_forall. intros [file group] Hin.
    unfold groups_of in Hin.
    apply list_elem_of_fmap in Hin as (f & [= -> ->] & Hf).
    apply first_seen_elem_of, list_elem_of_omap in Hf as (msg & Hmsg & Hfile).
    rewrite Forall_forall in Hall.
    destruct (Hall msg Hmsg) as (file' & Hfile' & _ & Hidx).
    cbn [fst]. congruence. }
  split; [|split].
  - unfold groups_of. rewrite <-list_fmap_compose. apply list_fmap_id.
  - rewrite <-(length_fmap snd rms). generalize (rms.*2) Hall.
    induction 1 as [|msg msgs (file & Hfile & _) _ IH]; [done|].
    cbn [omap list_omap]. rewrite Hfile. cbn [length]. by f_equal.
  - intros file group Hin. unfold groups_of in Hin.
    by apply list_elem_of_fmap in Hin as (f & [= -> ->] & _).
Qed.

End GroupingClaims.

(** ** Rendering *)

Lemma add_stderr_nil w : add_stderr [] w = w.
Proof. destruct w. unfold add_stderr. simpl. by rewrite app_nil_r. Qed.

Lemma add_stderr_app out1 out2 w :
  add_stderr out2 (add_stderr out1 w) = add_stderr (out1 ++ out2) w.
Proof. unfold add_stderr. simpl. by rewrite app_assoc. Qed.

Lemma stderr_write_run chunk w :
  stderr_write chunk w = (Normal tt, add_stderr [chunk] w).
Proof. reflexivity. Qed.

Lemma for_each_writes {A} (body : nat → A → M unit)
    (Q : A → Prop) (I : World → Prop) :
  (∀ w out, I w → I (add_stderr out w)) →
  (∀ i x w, I w → Q x → ∃ out, body i x w = (Normal tt, add_stderr out w)) →
  ∀ l i w, I w → Forall Q l →
    ∃ out, for_each body i l w = (Normal tt, add_stderr out w).
Proof.
  intros Hstable Hbody l. induction l as [|x l IH]; intros i w Hw Hl.
  - exists []. by rewrite add_stderr_nil.
  - apply Forall_cons in Hl as [Hx Hl].
    destruct (Hbody i x w Hw Hx) as [out1 Hrun1].
    destruct (IH (S i) (add_stderr out1 w)) as [out2 Hrun2]; [by apply Hstable|done|].
    exists (out1 ++ out2). cbn [for_each].
    erewrite bind_run; [|exact Hrun1]. by rewrite Hrun2, add_stderr_app.
Qed.

Section Rendering.
Context `{Externals}.

Lemma groups_of_located msgs :
  Forall groupable msgs →
  Forall (λ entry : string * FileGroup,
            Forall (λ m : OnlyLineColMessage, is_Some (location m !! 0%nat))
              (fileMessages entry.2))
    (Object_entries (groups_of msgs)).
Proof.
  intros Hall. apply Forall_forall. intros [file group] Hin.
  apply Object_entries_subseteq in Hin. unfold groups_of in Hin.
  apply list_elem_of_fmap in Hin as (f & [= -> ->] & _).
  cbn [snd group_of fileMessages]. apply Forall_fmap, Forall_forall.
  intros msg Hmsg. apply list_elem_of_filter in Hmsg as [_ Hmsg].
  rewrite Forall_forall in Hall. destruct (Hall msg Hmsg) as (f' & Hfile & _).
  unfold primaryFile in Hfile. cbn [mappedMessage location compose].
  rewrite list_lookup_fmap.
  destruct (location msg !! 0%nat); [by eexists|done].
Qed.

Lemma renderMessages_run format color cwd w visible shown :
  holds w visible shown →
  Forall (renderable format) shown.*2 →
  ∃ body,
    renderMessages format color cwd visible w = (Normal tt, add_stderr body w).
Proof.
  intros Hh Hall. destruct format; unfold renderMessages.
  - erewrite bind_run; [|by apply readArray_run].
    apply (for_each_writes _
             (λ r, ∃ o, objects w !! r = Some o ∧ is_Some (location o !! 0%nat))
             (λ w', objects w' = objects w)); [done| |done|].
    + intros i r w' Hw' (o & Hr & [location0 Hloc]).
      erewrite bind_run; [|unfold readObject; by rewrite Hw', Hr].
      erewrite bind_run; [|done]. unfold fullFormatMessage. rewrite Hloc.
      erewrite bind_run; [|done]. by eexists [_].
    + destruct Hh as [_ Hp]. unfold points in Hp.
      pose proof (proj1 (Forall_forall _ _) Hp) as Hp'.
      pose proof (proj1 (Forall_forall _ _) Hall) as Hall'.
      apply Forall_forall. intros r Hr.
      apply list_elem_of_fmap in Hr as ([r' o] & -> & Hin). exists o.
      split; [apply (Hp' _ Hin)|].
      apply (Hall' o), list_elem_of_fmap. by exists (r', o).
  - erewrite bind_run; [|by apply groupByFiles_run].
    apply (for_each_writes _
             (λ entry, Forall (λ m : OnlyLineColMessage,
                                 is_Some (location m !! 0%nat))
                         (fileMessages entry.2))
             (λ _, True)); [done| |done|by apply groups_of_located].
    intros _ [file group] w' _ Hlocated. cbn [fst snd] in *.
    erewrite bind_run; [|done]. erewrite bind_run; [|done].
    destruct (for_each_writes
                (λ _ msg,
                   enabled ← getColorEnabled;
                   text ← lift (shortFormatMessage enabled msg
                                  (locationPad group) (ruleIdPad group));
                   stderr_write (text +:+ LF))
                (λ m : OnlyLineColMessage, is_Some (location m !! 0%nat))
                (λ _, True)) with
      (l := fileMessages group) (i := 0%nat)
      (w := add_stderr
              [blue (colorEnabled w') (path_relative cwd file) +:+ ":" +:+ LF] w')
      as [lines Hlines]; [done| |done|done|].
    { intros _ msg w'' _ [loc0 Hloc]. erewrite bind_run; [|done].
      unfold shortFormatMessage. rewrite Hloc.
      erewrite bind_run; [|done]. by eexists [_]. }
    erewrite bind_run; [|exact Hlines].
    rewrite stderr_write_run, !add_stderr_app. by eexists.
Qed.

Lemma renderMessages_nothing format color cwd w visible :
  holds w visible [] →
  renderMessages format color cwd visible w = (Normal tt, w).
Proof.
  intros Hh. destruct format; unfold renderMessages.
  - erewrite bind_run; [|by apply readArray_run]. done.
  - erewrite bind_run; [|by apply groupByFiles_run]. done.
Qed.

End Rendering.

(** ** The whole of [formatMessages] *)

Section FormatMessages.
Context `{Externals}.

Lemma visibleMessages_kept rms maxMessages :
  visibleMessages rms maxMessages ⊆ notIgnored rms.
Proof.
  unfold visibleMessages. rewrite slice_0. intros rm Hin.
  by apply subseteq_take, bySeverity_subseteq in Hin.
Qed.

Lemma visibleMessages_nil rms maxMessages :
  notIgnored rms = [] → visibleMessages rms maxMessages = [].
Proof.
  intros Hkept. unfold visibleMessages. rewrite Hkept, slice_0. apply take_nil.
Qed.

(** Lines 44-59 of [formatMessages], up to the test of [totalMessages]. *)
Lemma formatMessages_select w messages rms opts :
  let maxMessages := default 100 (maxMessages opts) in
  let cwd := default process_cwd (cwd opts) in
  let format := default codeframe (format opts) in
  let color := default (colorEnabled w) (color opts) in
  let totalMessages := Z.of_nat (length rms) in
  let ignoredMessages := totalMessages - Z.of_nat (length (notIgnored rms)) in
  holds w messages rms →
  ∃ filtered w1 visible w2,
    countAndFilter messages (setColorEnabled color w).2
      = (Normal (totalMessages, filtered, ignoredMessages), w1)
    ∧ sortAndTruncate filtered maxMessages w1 = (Normal visible, w2)
    ∧ holds w2 visible (visibleMessages rms maxMessages)
    ∧ stderr w2 = stderr w
    ∧ colorEnabled w2 = color
    ∧ formatMessages messages opts w
      = (if totalMessages =? 0 then mret tt
         else
           renderMessages format color cwd visible;;
           if maxMessages <? totalMessages - ignoredMessages then
             enabled ← getColorEnabled;
             stderr_write (truncationNotice enabled totalMessages maxMessages)
           else mret tt) w2.
Proof.
  intros maxMessages cwd format color totalMessages ignoredMessages Hh.
  set (w0 := (setColorEnabled color w).2).
  assert (holds w0 messages rms) as Hh0 by exact Hh.
  destruct (countAndFilter_run w0 messages rms Hh0) as [Hrun1 Hh1].
  destruct (sortAndTruncate_run _ _ _ maxMessages Hh1) as [Hrun2 Hh2].
  eexists _, _, _, _.
  split; [exact Hrun1|]. split; [exact Hrun2|]. split; [exact Hh2|].
  split; [done|]. split; [done|].
  unfold formatMessages.
  erewrite bind_run; [|reflexivity].
  erewrite bind_run; [|reflexivity].
  erewrite bind_run; [|exact Hrun1]. cbv beta iota.
  erewrite bind_run; [|exact Hrun2]. done.
Qed.

(** C3: the truncation notice is written exactly when
    [totalMessages - ignoredMessages > maxMessages]; it is then the one chunk
    written after everything the layout wrote, and it reports
    [totalMessages - maxMessages], counted from the unfiltered total, followed
    by the muted hint. *)
Theorem truncation_notice_iff w messages rms opts :
  let maxMessages := default 100 (maxMessages opts) in
  let cwd := default process_cwd (cwd opts) in
  let format := default codeframe (format opts) in
  let color := default (colorEnabled w) (color opts) in
  let totalMessages := Z.of_nat (length rms) in
  let ignoredMessages :=
    Z.of_nat (length (filter (λ rm, ignored rm.2 = Some true) rms)) in
  holds w messages rms →
  Forall (renderable format) (notIgnored rms).*2 →
  0 ≤ maxMessages →
  ∃ filtered w1 visible w2 body w',
    countAndFilter messages (setColorEnabled color w).2
      = (Normal (totalMessages, filtered, ignoredMessages), w1)
    ∧ sortAndTruncate filtered maxMessages w1 = (Normal visible, w2)
    ∧ renderMessages format color cwd visible w2
      = (Normal tt, add_stderr body w2)
    ∧ formatMessages messages opts w = (Normal tt, w')
    ∧ stderr w'
      = stderr w ++ body
        ++ (if bool_decide (maxMessages < totalMessages - ignoredMessages)
            then [ "< ... " +:+ num (totalMessages - maxMessages)
                     +:+ " more messages hidden > "
                     +:+ gray color "increase with `--max-messages N`" +:+ LF ]
            else []).
Proof.
  intros maxMessages cwd format color totalMessages ignoredMessages Hh Hall Hmax.
  destruct (formatMessages_select w messages rms opts Hh)
    as (filtered & w1 & visible & w2 & Hrun1 & Hrun2 & Hh2 & Hout & Hcolor & Hrun).
  fold maxMessages cwd format color totalMessages in Hrun1, Hrun2, Hh2, Hcolor, Hrun.
  pose proof (ignored_split rms) as Hsplit.
  replace (totalMessages - Z.of_nat (length (notIgnored rms)))
    with ignoredMessages in Hrun1, Hrun by (unfold totalMessages, ignoredMessages; lia).
  destruct (Z.eqb_spec totalMessages 0) as [Hzero|Hpos].
  - assert (rms = []) as ->.
    { apply length_zero_iff_nil. unfold totalMessages in *. lia. }
    exists filtered, w1, visible, w2, [], w2.
    split; [exact Hrun1|]. split; [exact Hrun2|].
    rewrite visibleMessages_nil in Hh2 by done.
    split; [rewrite add_stderr_nil; by apply renderMessages_nothing|].
    split; [exact Hrun|].
    rewrite bool_decide_eq_false_2; [by rewrite Hout, !app_nil_r|].
    unfold totalMessages, ignoredMessages. simpl. lia.
  - destruct (renderMessages_run format color cwd w2 visible _ Hh2) as [body Hbody].
    { apply Forall_forall. intros msg Hmsg.
      apply list_elem_of_fmap in Hmsg as (rm & -> & Hrm).
      apply visibleMessages_kept in Hrm.
      rewrite Forall_forall in Hall. apply Hall, list_elem_of_fmap. by exists rm. }
    erewrite bind_run in Hrun; [|exact Hbody].
    destruct (Z.ltb_spec maxMessages (totalMessages - ignoredMessages)) as [Hlt|Hge].
    + erewrite bind_run in Hrun; [|reflexivity]. rewrite stderr_write_run in Hrun.
      eexists filtered, w1, visible, w2, body, _.
      split; [exact Hrun1|]. split; [exact Hrun2|]. split; [exact Hbody|].
      split; [exact Hrun|]. rewrite bool_decide_eq_true_2 by done.
      cbn [add_stderr stderr colorEnabled]. rewrite Hout, Hcolor.
      by rewrite <-app_assoc.
    + eexists filtered, w1, visible, w2, body, _.
      split; [exact Hrun1|]. split; [exact Hrun2|]. split; [exact Hbody|].
      split; [exact Hrun|]. rewrite bool_decide_eq_false_2 by lia.
      cbn [add_stderr stderr]. by rewrite Hout, app_nil_r.
Qed.

(** C5: when every message of the input is ignored, and so too when there is
    no message at all, [formatMessages] writes nothing: no file header, no
    message, no blank line and no truncation notice. *)
Theorem no_output_when_nothing_visible w messages rms opts :
  holds w messages rms →
  rms = [] ∨ Forall (λ rm, ignored rm.2 = Some true) rms →
  0 ≤ default 100 (maxMessages opts) →
  ∃ w', formatMessages messages opts w = (Normal tt, w')
        ∧ stderr w' = stderr w.
Proof.
  intros Hh Hnone Hmax.
  assert (Forall (λ rm : nat * NormalizedReportMessage,
                    ignored rm.2 = Some true) rms) as Hall.
  { destruct Hnone as [->|?]; [constructor|done]. }
  destruct (formatMessages_select w messages rms opts Hh)
    as (filtered & w1 & visible & w2 & _ & _ & Hh2 & Hout & _ & Hrun).
  assert (notIgnored rms = []) as Hkept.
  { unfold notIgnored. clear -Hall.
    induction Hall as [|rm rms Hrm _ IH]; [done|].
    rewrite filter_cons_False; [done|]. by rewrite Hrm. }
  rewrite visibleMessages_nil in Hh2 by done. rewrite Hkept in Hrun.
  exists w2. split; [|done]. rewrite Hrun.
  destruct (Z.eqb_spec (Z.of_nat (length rms)) 0); [done|].
  erewrite bind_run; [|by apply renderMessages_nothing].
  match goal with
  | |- context [?a <? ?b] => destruct (Z.ltb_spec a b); [simpl in *; lia|done]
  end.
Qed.

End FormatMessages.

(** ** What a call leaves of the world it started in *)

Lemma evolves_refl written w : evolves written w w.
Proof. by repeat split. Qed.

Lemma evolves_trans written w1 w2 w3 :
  evolves written w1 w2 → evolves written w2 w3 → evolves written w1 w3.
Proof.
  intros (Ha1 & Ho1 & Hc1) (Ha2 & Ho2 & Hc2). repeat split; [|congruence..].
  intros arr elems Hw Harr. by apply Ha2, Ha1.
Qed.

Lemma preserves_ret {A} written (a : A) : preserves written (mret a).
Proof. intros w. apply evolves_refl. Qed.

Lemma preserves_lift {A} written (c : Completion A) : preserves written (lift c).
Proof. intros w. apply evolves_refl. Qed.

Lemma preserves_bind {A B} written (m : M A) (f : A → M B) :
  preserves written m → (∀ a, preserves written (f a)) →
  preserves written (m ≫= f).
Proof.
  intros Hm Hf w. unfold mbind, M_bind. specialize (Hm w).
  destruct (m w) as [[a|e] w1]; [|done].
  eapply evolves_trans; [exact Hm|apply Hf].
Qed.

Lemma preserves_getColorEnabled written : preserves written getColorEnabled.
Proof. intros w. apply evolves_refl. Qed.

Lemma preserves_stderr_write written chunk : preserves written (stderr_write chunk).
Proof. intros w. by repeat split. Qed.

Lemma preserves_readArray written arr : preserves written (readArray arr).
Proof. intros w. unfold readArray. case_match; apply evolves_refl. Qed.

Lemma preserves_readObject written r : preserves written (readObject r).
Proof. intros w. unfold readObject. case_match; apply evolves_refl. Qed.

Lemma preserves_newArray written elems : preserves written (newArray elems).
Proof.
  intros w. repeat split. intros arr elems' _ Harr. cbn.
  rewrite lookup_insert_ne; [done|]. intros <-.
  by rewrite fresh_array_None in Harr.
Qed.

Lemma preserves_writeArray (written : nat → Prop) arr elems :
  written arr → preserves written (writeArray arr elems).
Proof.
  intros Hw w. unfold writeArray. case_match; [|apply evolves_refl].
  repeat split. intros arr' elems' Hnw Harr. cbn.
  rewrite lookup_insert_ne; [done|]. by intros <-.
Qed.

Lemma preserves_mapM {A B} written (f : A → M B) l :
  (∀ x, preserves written (f x)) → preserves written (mapM f l).
Proof.
  intros Hf. induction l as [|x l IH]; [apply preserves_ret|].
  cbn [mapM]. apply preserves_bind; [done|]. intros y.
  apply preserves_bind; [done|]. intros k. apply preserves_ret.
Qed.

Lemma preserves_for_each {A} written (body : nat → A → M unit) l i :
  (∀ j x, preserves written (body j x)) → preserves written (for_each body i l).
Proof.
  intros Hbody. revert i. induction l as [|x l IH]; intros i;
    [apply preserves_ret|].
  cbn [for_each]. apply preserves_bind; [done|]. intros _. apply IH.
Qed.

Create HintDb frame discriminated.
#[local] Hint Resolve preserves_ret preserves_lift preserves_getColorEnabled
  preserves_stderr_write preserves_readArray preserves_readObject
  preserves_newArray preserves_mapM preserves_for_each : frame.

Ltac frame := repeat (apply preserves_bind; [|intros ?]); eauto with frame.

Lemma preserves_Array_length written arr : preserves written (Array_length arr).
Proof. unfold Array_length. frame. Qed.

Lemma preserves_Array_filter written callbackFn arr :
  preserves written (Array_filter callbackFn arr).
Proof. unfold Array_filter. frame. Qed.

Lemma preserves_Array_slice written arr start end_ :
  preserves written (Array_slice arr start end_).
Proof. unfold Array_slice. frame. Qed.

(** [sort] writes the array it is called on, and no other. *)
Lemma preserves_Array_sort (written : nat → Prop) compareFn arr :
  written arr → preserves written (Array_sort compareFn arr).
Proof.
  intros Hw. unfold Array_sort. frame. by apply preserves_writeArray.
Qed.

Lemma preserves_countAndFilter written messages :
  preserves written (countAndFilter messages).
Proof.
  unfold countAndFilter.
  frame; auto using preserves_Array_length, preserves_Array_filter.
Qed.

Lemma preserves_sortAndTruncate (written : nat → Prop) messages maxMessages :
  written messages → preserves written (sortAndTruncate messages maxMessages).
Proof.
  intros Hw. unfold sortAndTruncate.
  frame; auto using preserves_writeArray.
Qed.

Section Frame.
Context `{Externals}.

Lemma preserves_groupByFiles_loop written fileGroups elems :
  preserves written (groupByFiles_loop fileGroups elems).
Proof.
  revert fileGroups. induction elems as [|r elems IH]; intros fileGroups;
    [apply preserves_ret|].
  cbn [groupByFiles_loop]. frame.
Qed.

Lemma preserves_renderMessages written format color cwd messages :
  preserves written (renderMessages format color cwd messages).
Proof.
  destruct format; unfold renderMessages, groupByFiles.
  - frame. apply preserves_for_each. intros j r. frame.
  - frame; [apply preserves_groupByFiles_loop|].
    apply preserves_for_each. intros j entry. frame.
    apply preserves_for_each. intros j' msg. frame.
Qed.

(** Everything [formatMessages] does after it has filtered the messages:
    the only array written is the filtered one, by [sort]. *)
Lemma preserves_after_filter (written : nat → Prop)
    (k : nat → M unit) filtered maxMessages :
  written filtered →
  (∀ visible, preserves written (k visible)) →
  preserves written (sortAndTruncate filtered maxMessages ≫= k).
Proof.
  intros Hw Hk. apply preserves_bind; [by apply preserves_sortAndTruncate|done].
Qed.

Lemma bind_Normal_inv {A B} (m : M A) (f : A → M B) w b w2 :
  (m ≫= f) w = (Normal b, w2) →
  ∃ a w1, m w = (Normal a, w1) ∧ f a w1 = (Normal b, w2).
Proof.
  unfold mbind, M_bind. destruct (m w) as [[a|e] w1]; [eauto|done].
Qed.

Lemma readArray_inv arr w elems w1 :
  readArray arr w = (Normal elems, w1) → w1 = w.
Proof. unfold readArray. case_match; congruence. Qed.

Lemma readObjects_same elems w :
  (mapM readObject elems w).2 = w.
Proof.
  revert w. induction elems as [|r elems IH]; intros w; [done|].
  cbn [mapM]. unfold mbind at 1, M_bind at 1. unfold readObject at 1.
  destruct (objects w !! r); [|done].
  unfold mbind, M_bind. specialize (IH w).
  destruct (mapM readObject elems w) as [[os|e] w1]; done.
Qed.

Lemma Array_length_inv arr w n w1 :
  Array_length arr w = (Normal n, w1) → w1 = w.
Proof.
  unfold Array_length. intros Hrun.
  apply bind_Normal_inv in Hrun as (elems & w' & Hread & Hret).
  apply readArray_inv in Hread. unfold mret, M_ret in Hret. by simplify_eq.
Qed.

Lemma Array_filter_fresh callbackFn arr w filtered w1 :
  Array_filter callbackFn arr w = (Normal filtered, w1) →
  arrays w !! filtered = None.
Proof.
  unfold Array_filter. intros Hrun.
  apply bind_Normal_inv in Hrun as (elems & wa & Hread & Hrun).
  apply readArray_inv in Hread as ->.
  apply bind_Normal_inv in Hrun as (os & wb & Hobjs & Hrun).
  pose proof (readObjects_same elems w) as Hsame.
  rewrite Hobjs in Hsame. cbn [snd] in Hsame. subst wb.
  unfold newArray in Hrun. simplify_eq. apply fresh_array_None.
Qed.

Lemma countAndFilter_fresh messages w totalMessages filtered ignoredMessages w1 :
  countAndFilter messages w
    = (Normal (totalMessages, filtered, ignoredMessages), w1) →
  arrays w !! filtered = None.
Proof.
  unfold countAndFilter. intros Hrun.
  apply bind_Normal_inv in Hrun as (total & wa & Hlen & Hrun).
  apply Array_length_inv in Hlen as ->.
  apply bind_Normal_inv in Hrun as (arr & wb & Hfilter & Hrun).
  apply Array_filter_fresh in Hfilter.
  apply bind_Normal_inv in Hrun as (remaining & wc & _ & Hret).
  unfold mret, M_ret in Hret. by simplify_eq.
Qed.

End Frame.

Section FrameClaims.
Context `{Externals}.

Lemma preserves_render_and_notice written format color cwd visible
    (totalMessages ignoredMessages maxMessages : Z) :
  preserves written
    (if totalMessages =? 0 then mret tt
     else
       renderMessages format color cwd visible;;
       if maxMessages <? totalMessages - ignoredMessages then
         enabled ← getColorEnabled;
         stderr_write (truncationNotice enabled totalMessages maxMessages)
       else mret tt).
Proof.
  destruct (totalMessages =? 0); [apply preserves_ret|].
  apply preserves_bind; [apply preserves_renderMessages|]. intros _.
  destruct (maxMessages <? totalMessages - ignoredMessages); frame.
Qed.

(** C9: a call leaves every array that existed before it, the caller's
    among them, with the same elements in the same order, and every message
    object with the same fields: [filter] and [slice] make new arrays, [sort]
    reorders the array [filter] made, and grouping builds new objects. *)
Theorem caller_messages_unchanged w messages opts :
  let w' := (formatMessages messages opts w).2 in
  (∀ arr elems, arrays w !! arr = Some elems → arrays w' !! arr = Some elems)
  ∧ objects w' = objects w.
Proof.
  cbv zeta. remember (formatMessages messages opts w) as result eqn:Hresult.
  unfold formatMessages in Hresult.
  unfold mbind at 1, M_bind at 1 in Hresult. cbn [getColorEnabled] in Hresult.
  unfold mbind at 1, M_bind at 1 in Hresult. cbn [setColorEnabled] in Hresult.
  set (w0 := {| arrays := arrays w |}) in Hresult.
  unfold mbind at 1, M_bind at 1 in Hresult.
  pose proof (preserves_countAndFilter (λ _, False) messages w0) as Hfilter.
  destruct (countAndFilter messages w0) as [[[[total filtered] ignoredN]|e] w1]
    eqn:Hrun1; cbn [snd] in *; destruct Hfilter as (Harr1 & Hobj1 & _).
  - apply countAndFilter_fresh in Hrun1.
    match type of Hresult with
    | _ = (sortAndTruncate filtered ?n ≫= ?k) w1 =>
        pose proof (preserves_after_filter (λ arr, arr = filtered) k filtered n
                      eq_refl) as Hrest
    end.
    destruct (Hrest (λ visible, preserves_render_and_notice _ _ _ _ _ _ _ _) w1)
      as (Harr2 & Hobj2 & _).
    rewrite <-Hresult in Harr2, Hobj2.
    split; [|etrans; [exact Hobj2|exact Hobj1]].
    intros arr elems Harr. apply Harr2.
    + intros ->. change (arrays w0) with (arrays w) in Hrun1. congruence.
    + apply Harr1; [tauto|done].
  - subst result. split; [|done].
    intros arr elems Harr. apply Harr1; [tauto|done].
Qed.

(** C10: after every call, whatever it wrote and whether or not it returned
    early, [colorOptions.enabled] is the colour option the call resolved: the
    [color] given in [opts], or else the value of the toggle before the call. *)
Theorem color_toggle_after_call w messages opts :
  colorEnabled (formatMessages messages opts w).2
  = default (colorEnabled w) (color opts).
Proof.
  unfold formatMessages.
  unfold mbind at 1, M_bind at 1. cbn [getColorEnabled].
  unfold mbind at 1, M_bind at 1. cbn [setColorEnabled].
  set (w0 := {| arrays := arrays w |}).
  match goal with
  | |- colorEnabled (?rest w0).2 = _ =>
      assert (preserves (λ _, True) rest) as Hrest
  end.
  { apply preserves_bind; [apply preserves_countAndFilter|].
    intros [[total filtered] ignoredN].
    apply preserves_after_filter; [done|]. intros visible.
    apply preserves_render_and_notice. }
  by destruct (Hrest w0) as (_ & _ & ->).
Qed.

End FrameClaims.

(** ** Suggestions *)

Lemma append_cons ch (a b : string) : String ch a +:+ b = String ch (a +:+ b).
Proof. reflexivity. Qed.

Lemma append_assoc (a b c : string) : (a +:+ b) +:+ c = a +:+ b +:+ c.
Proof. induction a as [|ch a IH]; [done|]. by rewrite !append_cons, IH. Qed.

Lemma concat_cons_cons sep (x y : string) l :
  String.concat sep (x :: y :: l) = x +:+ sep +:+ String.concat sep (y :: l).
Proof. reflexivity. Qed.

Lemma join_bulleted (s : string) (l : list string) :
  "  - " +:+ String.concat (LF +:+ "  - ") (s :: l) +:+ LF = bulleted (s :: l).
Proof.
  revert s. induction l as [|s' l IH]; intros s; [done|].
  unfold bulleted in *. rewrite !fmap_cons, !concat_cons_cons.
  specialize (IH s'). rewrite fmap_cons in IH. rewrite <-IH, !append_assoc.
  done.
Qed.

Lemma slice_take {A} (l : list A) (n : Z) :
  0 ≤ n → slice l 0 n = take (Z.to_nat n) l.
Proof.
  intros Hn. rewrite slice_0. unfold relative_index.
  destruct (Z.ltb_spec n 0); [lia|].
  destruct (Z.le_gt_cases n (Z.of_nat (length l))).
  - by rewrite Z.min_l.
  - rewrite Z.min_r, Nat2Z.id by lia. rewrite !take_ge; [done|lia..].
Qed.

(** C6: no suggestion renders nothing; one suggestion renders the line
    [Did you mean: s ?]; two or more render a list with one bullet for each of
    the first [min(5, length)] suggestions, the others being dropped. *)
Theorem did_you_mean_policy {L} (msg : ReportMessage L) :
  formatDidYouMean msg
  = match suggest msg with
    | [] => ""
    | [s] => "Did you mean: " +:+ s +:+ " ?" +:+ LF +:+ LF
    | _ => "Did you mean:" +:+ LF +:+ bulleted (take 5 (suggest msg)) +:+ LF
    end
  ∧ length (take 5 (suggest msg)) = (5 `min` length (suggest msg))%nat.
Proof.
  split; [|apply length_take].
  unfold formatDidYouMean. destruct (suggest msg) as [|s1 [|s2 rest]]; [done..|].
  cbn [length Nat.eqb]. rewrite slice_take by done.
  change (Z.to_nat MAX_SUGGEST) with 5%nat. cbn [take].
  by rewrite <-join_bulleted, !append_assoc.
Qed.

(** ** Locations in the codeframe layout *)

Section Codeframe.
Context `{Externals}.

(** C4, as the code has it: the codeframe layout renders the first location
    of a message, and no other entry of its location list: the header shows
    the file of that location, relative to [cwd], with its resolved line and
    column, and its pointer if it has one, and the code frame is that of its
    resolved position.  The "referenced from" note, written just before the
    attribution line, is that of the [from] field of the message: nothing
    when the field is absent, the file, line and column of that location
    otherwise. *)
Theorem codeframe_renders_first_location enabled color cwd
    (msg : NormalizedReportMessage) idx location0 others others' :
  let loc := getLineColLocation location0 in
  let fileWithLoc :=
    path_relative cwd (absoluteRef (source location0))
      +:+ ":" +:+ num (line (start loc)) +:+ ":" +:+ num (col (start loc)) in
  let atPointer :=
    match pointer location0 with
    | Some p => if decide (p = "") then "" else gray enabled ("at " +:+ p)
    | None => ""
    end in
  fullFormatMessage enabled color cwd (withLocation (location0 :: others) msg) idx
  = fullFormatMessage enabled color cwd (withLocation (location0 :: others') msg) idx
  ∧ fullFormatMessage enabled color cwd
      (withLocation (location0 :: others) msg) idx
    = Normal
        ("[" +:+ num (Z.of_nat idx + 1) +:+ "] "
         +:+ BG_COLORS (severity msg) enabled fileWithLoc
         +:+ " " +:+ atPointer +:+ LF +:+ LF
         +:+ message msg +:+ LF +:+ LF
         +:+ formatDidYouMean msg
         +:+ getCodeframe loc color +:+ LF +:+ LF
         +:+ formatFrom enabled cwd (from msg)
         +:+ SEVERITY_NAMES (severity msg) +:+ " was generated by the "
         +:+ blue enabled (ruleId msg) +:+ " rule." +:+ LF +:+ LF)
  ∧ formatFrom enabled cwd None = ""
  ∧ (∀ referrer,
       formatFrom enabled cwd (Some referrer)
       = "referenced from "
         +:+ blue enabled
               (path_relative cwd (absoluteRef (source referrer))
                  +:+ ":" +:+ num (line (start (getLineColLocation referrer)))
                  +:+ ":" +:+ num (col (start (getLineColLocation referrer))))
         +:+ LF +:+ LF)
  ∧ ∃ before,
      fullFormatMessage enabled color cwd
        (withLocation (location0 :: others) msg) idx
      = Normal
          (before
           +:+ formatFrom enabled cwd (from msg)
           +:+ SEVERITY_NAMES (severity msg) +:+ " was generated by the "
           +:+ blue enabled (ruleId msg) +:+ " rule." +:+ LF +:+ LF).
Proof.
  intros loc fileWithLoc atPointer.
  assert (fullFormatMessage enabled color cwd
            (withLocation (location0 :: others) msg) idx
          = Normal
              ("[" +:+ num (Z.of_nat idx + 1) +:+ "] "
               +:+ BG_COLORS (severity msg) enabled fileWithLoc
               +:+ " " +:+ atPointer +:+ LF +:+ LF
               +:+ message msg +:+ LF +:+ LF
               +:+ formatDidYouMean msg
               +:+ getCodeframe loc color +:+ LF +:+ LF
               +:+ formatFrom enabled cwd (from msg)
               +:+ SEVERITY_NAMES (severity msg) +:+ " was generated by the "
               +:+ blue enabled (ruleId msg) +:+ " rule." +:+ LF +:+ LF))
    as Htext.
  { unfold fullFormatMessage, formatDidYouMean, lineCol.
    cbn [withLocation location lookup list_lookup severity message from ruleId
         suggest].
    fold loc. f_equal. unfold fileWithLoc, atPointer.
    rewrite !append_assoc. reflexivity. }
  split; [reflexivity|]. split; [exact Htext|].
  split; [reflexivity|].
  split.
  { intros referrer. unfold formatFrom, lineCol.
    rewrite ?append_assoc. reflexivity. }
  rewrite Htext. eexists. rewrite <-!append_assoc. reflexivity.
Qed.

End Codeframe.

(** ** The concrete run *)

(** Scenario A, with the error of another file: the error is listed first,
    the ignored message not at all. *)
Example stylish_run :
  stderr (formatMessages 0 (stylishOpts 100) world).2
  = [ "/b.yaml:" +:+ LF; "  2:3   no-bar-here bad bar" +:+ LF; LF;
      "/a.yaml:" +:+ LF; "  2:3   no-foo bad foo" +:+ LF; LF ].
Proof. vm_compute. reflexivity. Qed.

(** With room for one message, the notice counts from the unfiltered total. *)
Example truncated_run :
  stderr (formatMessages 0 (stylishOpts 1) world).2
  = [ "/b.yaml:" +:+ LF; "  2:3   no-bar-here bad bar" +:+ LF; LF;
      "< ... 2 more messages hidden > increase with `--max-messages N`" +:+ LF ].
Proof. vm_compute. reflexivity. Qed.

(** Scenario C: in the codeframe layout the error is message [1], the
    warning message [2], whatever their order in the input. *)
Example codeframe_run :
  String.prefix "[1] /b.yaml:2:3"
    <$> stderr (formatMessages 0 (codeframeOpts 100) world).2
  = [true; false]
  ∧ String.prefix "[2] /a.yaml:2:3"
      <$> stderr (formatMessages 0 (codeframeOpts 100) world).2
    = [false; true].
Proof. split; vm_compute; reflexivity. Qed.

(** A message without a location makes the codeframe layout throw, after
    the messages before it have been written. *)
Example no_location_throws :
  let w := {| arrays := {[ 0%nat := [11; 13]%nat ]};
              objects := {[ 11%nat := noBar; 13%nat := withLocation [] noFoo ]};
              colorEnabled := false; stderr := [] |} in
  (formatMessages 0 (codeframeOpts 100) w).1 = Throw TypeError
  ∧ length (stderr (formatMessages 0 (codeframeOpts 100) w).2) = 1%nat.
Proof. split; vm_compute; reflexivity. Qed.

(** A file named like a member of [Object.prototype] makes the grouper
    throw. *)
Example inherited_key_throws :
  let w := {| arrays := {[ 0%nat := [13]%nat ]};
              objects := {[ 13%nat := withLocation [inFile "constructor"] noFoo ]};
              colorEnabled := false; stderr := [] |} in
  (formatMessages 0 (stylishOpts 100) w).1 = Throw TypeError
  ∧ stderr (formatMessages 0 (stylishOpts 100) w).2 = [].
Proof. split; vm_compute; reflexivity. Qed.

(** [sort] reorders the array it is given: the caller's array stays as it
    was only because [filter] has copied it before. *)
Example sort_is_in_place :
  arrays (Array_sort
            (λ a b, severityToNumber (severity a) - severityToNumber (severity b))
            0 world).2 !! 0%nat
  = Some [11; 10; 12]%nat.
Proof. vm_compute. reflexivity. Qed.

(** Keys that are array indices are listed first, whatever their creation
    order. *)
Example array_index_keys_first :
  (Object_entries [("/a.yaml", 1); ("2", 2); ("1", 3)]).*1 = ["1"; "2"; "/a.yaml"].
Proof. vm_compute. reflexivity. Qed.

(** The sort is stable and comes before the cut: of the four messages kept,
    the two errors are shown first, then the first of the two warnings. *)
Example mixed_sorted_run :
  ∃ filtered w1 visible w2,
    countAndFilter 0 mixedWorld = (Normal (5, filtered, 1), w1)
    ∧ sortAndTruncate filtered 3 w1 = (Normal visible, w2)
    ∧ holds w2 visible [(21, noBaz); (24, noBar); (20, noFoo)]%nat.
Proof.
  eexists _, _, _, _. split; [vm_compute; reflexivity|].
  split; [vm_compute; reflexivity|].
  split; [vm_compute; reflexivity|repeat constructor].
Qed.

(** Grouping after the sort: the error of [/a.yaml] is listed before the two
    warnings that came before and after it in the input. *)
Example mixed_groups_run :
  ∃ filtered w1 visible w2 fileGroups,
    countAndFilter 0 mixedWorld = (Normal (5, filtered, 1), w1)
    ∧ sortAndTruncate filtered 100 w1 = (Normal visible, w2)
    ∧ groupByFiles visible w2 = (Normal fileGroups, w2)
    ∧ (λ fg : string * FileGroup, (fg.1, ruleId <$> fileMessages fg.2))
        <$> fileGroups
      = [("/a.yaml", ["no-baz-at-all"; "no-foo"; "no-qux"]);
         ("/b.yaml", ["no-bar-here"])].
Proof.
  eexists _, _, _, _, _. split; [vm_compute; reflexivity|].
  split; [vm_compute; reflexivity|].
  split; vm_compute; reflexivity.
Qed.

(** C4, as stated, fails: [noBar] has a second location, in [/c.yaml], and
    the codeframe layout writes no "referenced from" note for it, nor the
    name of that file. *)
Lemma secondary_location_not_rendered :
  location noBar !! 1%nat = Some (inFile "/c.yaml")
  ∧ ∃ text,
      fullFormatMessage false false "/" noBar 0 = Normal text
      ∧ occurs (formatFrom false "/" (Some (inFile "/c.yaml"))) text = false
      ∧ occurs "referenced from" text = false
      ∧ occurs "/c.yaml" text = false.
Proof.
  split; [reflexivity|]. eexists. split; [vm_compute; reflexivity|].
  repeat split; vm_compute; reflexivity.
Qed.

(** ** The theorems at the concrete run *)

Lemma filter_truncate_counts_witness :
  holds world 0 reported ∧ 0 < 1
  ∧ ∃ totalMessages ignoredMessages filtered w1 kept visible w2 shown,
      countAndFilter 0 world
        = (Normal (totalMessages, filtered, ignoredMessages), w1)
      ∧ holds w1 filtered kept
      ∧ sortAndTruncate filtered 1 w1 = (Normal visible, w2)
      ∧ holds w2 visible shown
      ∧ totalMessages = Z.of_nat (length reported)
      ∧ ignoredMessages
        = Z.of_nat (length (filter (λ rm, ignored rm.2 = Some true) reported))
      ∧ ignoredMessages + Z.of_nat (length kept) = totalMessages
      ∧ Z.of_nat (length shown) = Z.min 1 (totalMessages - ignoredMessages).
Proof.
  split; [split; [reflexivity|repeat constructor]|]. split; [lia|].
  refine (filter_truncate_counts world 0%nat reported 1 _ _);
    [split; [reflexivity|repeat constructor]|lia].
Defined.

Lemma severity_order_stable_witness :
  holds mixedWorld 0 mixedReported
  ∧ ∃ totalMessages ignoredMessages filtered w1 kept visible w2 shown,
      countAndFilter 0 mixedWorld
        = (Normal (totalMessages, filtered, ignoredMessages), w1)
      ∧ holds w1 filtered kept
      ∧ sortAndTruncate filtered 3 w1 = (Normal visible, w2)
      ∧ holds w2 visible shown
      ∧ kept = filter (λ rm, ignored rm.2 ≠ Some true) mixedReported
      ∧ shown
        = slice (filter (λ rm, severity rm.2 = error) kept
                 ++ filter (λ rm, severity rm.2 = warn) kept) 0 3
      ∧ (Z.of_nat (length kept) ≤ 3 →
         shown
         = filter (λ rm, severity rm.2 = error) kept
           ++ filter (λ rm, severity rm.2 = warn) kept)
      ∧ ∃ errors warns,
          shown = errors ++ warns
          ∧ Forall (λ rm, severity rm.2 = error) errors
          ∧ Forall (λ rm, severity rm.2 = warn) warns
          ∧ errors `prefix_of` filter (λ rm, severity rm.2 = error) kept
          ∧ warns `prefix_of` filter (λ rm, severity rm.2 = warn) kept.
Proof.
  split; [split; [reflexivity|repeat constructor]|].
  refine (severity_order_stable mixedWorld 0%nat mixedReported 3 _).
  split; [reflexivity|repeat constructor].
Defined.

Lemma truncation_notice_iff_witness :
  let totalMessages := Z.of_nat (length reported) in
  let ignoredMessages :=
    Z.of_nat (length (filter (λ rm, ignored rm.2 = Some true) reported)) in
  holds world 0 reported
  ∧ Forall (renderable stylish) (notIgnored reported).*2
  ∧ 0 ≤ 1
  ∧ ∃ filtered w1 visible w2 body w',
      countAndFilter 0 (setColorEnabled false world).2
        = (Normal (totalMessages, filtered, ignoredMessages), w1)
      ∧ sortAndTruncate filtered 1 w1 = (Normal visible, w2)
      ∧ renderMessages stylish false "/" visible w2
        = (Normal tt, add_stderr body w2)
      ∧ formatMessages 0 (stylishOpts 1) world = (Normal tt, w')
      ∧ stderr w'
        = [] ++ body
          ++ (if bool_decide (1 < totalMessages - ignoredMessages)
              then [ "< ... " +:+ num (totalMessages - 1)
                       +:+ " more messages hidden > "
                       +:+ gray false "increase with `--max-messages N`" +:+ LF ]
              else []).
Proof.
  split; [split; [reflexivity|repeat constructor]|].
  split; [repeat constructor; eexists; (split; reflexivity)|].
  split; [lia|].
  refine (truncation_notice_iff world 0%nat reported (stylishOpts 1) _ _ _).
  - split; [reflexivity|repeat constructor].
  - repeat constructor; eexists; (split; reflexivity).
  - simpl. lia.
Defined.

Lemma no_output_when_nothing_visible_witness :
  holds ignoredOnly 0 [(12%nat, noFooIgnored)]
  ∧ ([(12%nat, noFooIgnored)] = []
     ∨ Forall (λ rm : nat * NormalizedReportMessage, ignored rm.2 = Some true)
         [(12%nat, noFooIgnored)])
  ∧ 0 ≤ 100
  ∧ ∃ w',
      formatMessages 0 (stylishOpts 100) ignoredOnly = (Normal tt, w')
      ∧ stderr w' = stderr ignoredOnly.
Proof.
  split; [split; [reflexivity|repeat constructor]|].
  split; [right; repeat constructor|].
  split; [lia|].
  refine (no_output_when_nothing_visible ignoredOnly 0%nat
            [(12%nat, noFooIgnored)] (stylishOpts 100) _ _ _).
  - split; [reflexivity|repeat constructor].
  - right. repeat constructor.
  - simpl. lia.
Defined.

Section MeasuredRun.
#[local] Existing Instance measuring.

(** The second location of [noBaz], in a file with a longer name, sets the
    position pad of the group of [/a.yaml]: [27:3] has four characters, the
    primary positions [7:3] have three. *)
Example secondary_location_widens_pad :
  ∃ fileGroups group,
    groupByFiles 0 mixedWorld = (Normal fileGroups, mixedWorld)
    ∧ fileGroups !! 0%nat = Some ("/a.yaml", group)
    ∧ lineCol (getLineColLocation (inFile "/a.yaml")) = "7:3"
    ∧ locationPad group = 4%nat
    ∧ ruleIdPad group = 13%nat.
Proof.
  eexists _, _. split; [vm_compute; reflexivity|].
  split; [reflexivity|]. repeat split; vm_compute; reflexivity.
Qed.

Lemma pads_are_group_maxima_witness :
  holds mixedWorld 0 mixedReported
  ∧ Forall groupable mixedReported.*2
  ∧ ∃ fileGroups,
      groupByFiles 0 mixedWorld = (Normal fileGroups, mixedWorld)
      ∧ (∀ msg, msg ∈ mixedReported.*2 →
           ∃ file group,
             primaryFile source msg = Some file ∧ (file, group) ∈ fileGroups)
      ∧ ∀ file group, (file, group) ∈ fileGroups →
          fileMessages group
          = mappedMessage
              <$> filter (λ m, primaryFile source m = Some file)
                    mixedReported.*2
          ∧ ruleIdPad group
            = max_list
                ((λ m : NormalizedReportMessage, String.length (ruleId m))
                   <$> filter (λ m, primaryFile source m = Some file)
                         mixedReported.*2)
          ∧ locationPad group
            = max_list
                ((λ l, String.length (lineCol (getLineColLocation l)))
                   <$> mjoin (location
                                <$> filter
                                      (λ m, primaryFile source m = Some file)
                                      mixedReported.*2))
          ∧ ruleIdPad group
            = max_list ((λ m, String.length (ruleId m)) <$> fileMessages group)
          ∧ locationPad group
            = max_list ((λ loc, String.length (lineCol loc))
                          <$> mjoin (location <$> fileMessages group)).
Proof.
  split; [split; [reflexivity|repeat constructor]|].
  split; [repeat constructor; eexists; (split; reflexivity)|].
  refine (pads_are_group_maxima mixedWorld 0%nat mixedReported _ _).
  - split; [reflexivity|repeat constructor].
  - repeat constructor; eexists; (split; reflexivity).
Defined.

End MeasuredRun.

Lemma groups_by_primary_file_witness :
  holds world 0 reported
  ∧ Forall filed reported.*2
  ∧ ∃ groupedByFile,
      groupByFiles 0 world = (Normal groupedByFile, world)
      ∧ (Object_entries groupedByFile).*1
        = first_seen (omap (primaryFile source) reported.*2)
      ∧ length (omap (primaryFile source) reported.*2) = length reported
      ∧ ∀ file group, (file, group) ∈ Object_entries groupedByFile →
          fileMessages group
          = mappedMessage
              <$> filter (λ m, primaryFile source m = Some file) reported.*2.
Proof.
  split; [split; [reflexivity|repeat constructor]|].
  split; [repeat constructor; eexists; (split; [reflexivity|split; reflexivity])|].
  refine (groups_by_primary_file world 0%nat reported _ _).
  - split; [reflexivity|repeat constructor].
  - repeat constructor; eexists; (split; [reflexivity|split; reflexivity]).
Defined.

(** * Further properties of the formatter *)

(** ** What the codeframe layout writes *)

Section CodeframeOutput.
Context `{Externals}.

Lemma mapM_Normal_cons {A B} (f : A → Completion B) x l ys :
  mapM f (x :: l) = Normal ys →
  ∃ y ys', f x = Normal y ∧ mapM f l = Normal ys' ∧ ys = y :: ys'.
Proof.
  cbn [mapM]. unfold mbind, Completion_bind.
  destruct (f x) as [y|e]; [|done].
  destruct (mapM f l) as [ys'|e]; [|done].
  intros [= <-]. eauto.
Qed.

Lemma mapM_Normal_exists {A B} (f : A → Completion B) l :
  Forall (λ x, ∃ y, f x = Normal y) l → ∃ ys, mapM f l = Normal ys.
Proof.
  induction 1 as [|x l [y Hy] _ [ys Hys]]; [by exists []|].
  exists (y :: ys). cbn [mapM]. by rewrite Hy, Hys.
Qed.

Lemma points_add_stderr w out rms : points w rms → points (add_stderr out w) rms.
Proof. done. Qed.

(** The loop of lines 64-67 over messages that all have a first location. *)
Lemma codeframe_loop_run color cwd shown : ∀ i w texts,
  points w shown →
  mapM (λ im, fullFormatMessage (colorEnabled w) color cwd im.2 im.1)
    (numbered i shown.*2) = Normal texts →
  for_each
    (λ i r,
       msg ← readObject r;
       enabled ← getColorEnabled;
       text ← lift (fullFormatMessage enabled color cwd msg i);
       stderr_write (text +:+ LF))
    i shown.*1 w
  = (Normal tt, add_stderr ((λ text, text +:+ LF) <$> texts) w).
Proof.
  induction shown as [|[r o] shown IH]; intros i w texts Hp Htexts.
  - cbn in Htexts. injection Htexts as <-. cbn. by rewrite add_stderr_nil.
  - apply Forall_cons in Hp as [Hr Hp]. cbn [fst snd] in Hr.
    cbn [fmap list_fmap numbered] in Htexts.
    apply mapM_Normal_cons in Htexts as (text & texts' & Htext & Htexts & ->).
    cbn [fst snd] in Htext.
    cbn [fmap list_fmap for_each fst].
    erewrite bind_run.
    + rewrite (IH (S i) (add_stderr [text +:+ LF] w) texts'
                 (points_add_stderr _ _ _ Hp) Htexts).
      by rewrite add_stderr_app.
    + erewrite bind_run; [|unfold readObject; by rewrite Hr].
      erewrite bind_run; [|reflexivity]. rewrite Htext.
      erewrite bind_run; [|reflexivity]. apply stderr_write_run.
Qed.
(** The same loop when a message without a location follows messages that
    have one. *)
Lemma codeframe_loop_throw color cwd before r bad after : ∀ i w texts,
  points w (before ++ (r, bad) :: after) →
  mapM (λ im, fullFormatMessage (colorEnabled w) color cwd im.2 im.1)
    (numbered i before.*2) = Normal texts →
  location bad = [] →
  for_each
    (λ i r,
       msg ← readObject r;
       enabled ← getColorEnabled;
       text ← lift (fullFormatMessage enabled color cwd msg i);
       stderr_write (text +:+ LF))
    i (before ++ (r, bad) :: after).*1 w
  = (Throw TypeError, add_stderr ((λ text, text +:+ LF) <$> texts) w).
Proof.
  induction before as [|[r' o] before IH]; intros i w texts Hp Htexts Hbad.
  - cbn in Htexts. injection Htexts as <-. rewrite add_stderr_nil.
    apply Forall_cons in Hp as [Hr _]. cbn [fst snd] in Hr.
    cbn [app fmap list_fmap for_each fst].
    erewrite bind_throw; [done|].
    erewrite bind_run; [|unfold readObject; by rewrite Hr].
    erewrite bind_run; [|reflexivity].
    erewrite bind_throw; [done|]. unfold fullFormatMessage, lift.
    by rewrite Hbad.
  - apply Forall_cons in Hp as [Hr Hp]. cbn [fst snd] in Hr.
    cbn [fmap list_fmap numbered] in Htexts.
    apply mapM_Normal_cons in Htexts as (text & texts' & Htext & Htexts & ->).
    cbn [fst snd] in Htext.
    cbn [app fmap list_fmap for_each fst].
    erewrite bind_run.
    + rewrite (IH (S i) (add_stderr [text +:+ LF] w) texts'
                 (points_add_stderr _ _ _ Hp) Htexts Hbad).
      by rewrite add_stderr_app.
    + erewrite bind_run; [|unfold readObject; by rewrite Hr].
      erewrite bind_run; [|reflexivity]. rewrite Htext.
      erewrite bind_run; [|reflexivity]. apply stderr_write_run.
Qed.

Lemma Forall_numbered {A} (P : nat → A → Prop) l i :
  Forall (λ x, ∀ j, P j x) l → Forall (λ ix : nat * A, P ix.1 ix.2) (numbered i l).
Proof.
  intros Hl. revert i. induction Hl; intros i; cbn [numbered]; constructor; auto.
Qed.

Lemma visible_renderable format rms maxMessages :
  Forall (renderable format) (notIgnored rms).*2 →
  Forall (renderable format) (visibleMessages rms maxMessages).*2.
Proof.
  intros Hall. apply Forall_forall. intros msg Hmsg.
  apply list_elem_of_fmap in Hmsg as (rm & -> & Hrm).
  apply visibleMessages_kept in Hrm.
  rewrite Forall_forall in Hall. apply Hall, list_elem_of_fmap. by exists rm.
Qed.

(** The codeframe layout, from the call to the last chunk. *)
Lemma codeframe_layout_run w messages rms opts :
  let maxMessages := default 100 (maxMessages opts) in
  let cwd := default process_cwd (cwd opts) in
  let color := default (colorEnabled w) (color opts) in
  let totalMessages := Z.of_nat (length rms) in
  let ignoredMessages :=
    Z.of_nat (length (filter (λ rm, ignored rm.2 = Some true) rms)) in
  holds w messages rms →
  default codeframe (format opts) = codeframe →
  Forall (renderable codeframe) (notIgnored rms).*2 →
  ∃ texts w',
    codeframeTexts color color cwd (visibleMessages rms maxMessages).*2
      = Normal texts
    ∧ formatMessages messages opts w = (Normal tt, w')
    ∧ stderr w'
      = stderr w ++ ((λ text, text +:+ LF) <$> texts)
        ++ (if bool_decide
                 (rms ≠ [] ∧ maxMessages < totalMessages - ignoredMessages)
            then [truncationNotice color totalMessages maxMessages]
            else []).
Proof.
  intros maxMessages cwd color totalMessages ignoredMessages Hh Hformat Hall.
  destruct (formatMessages_select w messages rms opts Hh)
    as (filtered & w1 & visible & w2 & _ & _ & Hh2 & Hout & Hcolor & Hrun).
  fold maxMessages cwd color totalMessages in Hh2, Hcolor, Hrun.
  rewrite Hformat in Hrun.
  pose proof (ignored_split rms) as Hsplit.
  replace (totalMessages - Z.of_nat (length (notIgnored rms)))
    with ignoredMessages in Hrun by (unfold totalMessages, ignoredMessages; lia).
  destruct (mapM_Normal_exists
              (λ im, fullFormatMessage color color cwd im.2 im.1)
              (numbered 0 (visibleMessages rms maxMessages).*2)) as [texts Htexts].
  { apply (Forall_numbered
             (λ i msg, ∃ text, fullFormatMessage color color cwd msg i = Normal text)).
    eapply Forall_impl; [apply (visible_renderable codeframe), Hall|].
    intros msg [location0 Hloc] i. unfold fullFormatMessage. rewrite Hloc.
    by eexists. }
  destruct (Z.eqb_spec totalMessages 0) as [Hzero|Hpos].
  - assert (rms = []) as ->.
    { apply length_zero_iff_nil. unfold totalMessages in *. lia. }
    rewrite visibleMessages_nil in Htexts by done.
    cbn in Htexts. injection Htexts as <-.
    exists [], w2. rewrite visibleMessages_nil by done.
    split; [done|]. split; [done|].
    rewrite bool_decide_eq_false_2 by tauto. by rewrite Hout, !app_nil_r.
  - assert (rms ≠ []) as Hne by (intros ->; by apply Hpos).
    assert (renderMessages codeframe color cwd visible w2
            = (Normal tt, add_stderr ((λ text, text +:+ LF) <$> texts) w2))
      as Hbody.
    { unfold renderMessages.
      erewrite bind_run; [|by apply readArray_run].
      apply codeframe_loop_run; [apply Hh2|]. by rewrite Hcolor. }
    erewrite bind_run in Hrun; [|exact Hbody].
    destruct (Z.ltb_spec maxMessages (totalMessages - ignoredMessages)) as [Hlt|Hge].
    + erewrite bind_run in Hrun; [|reflexivity]. rewrite stderr_write_run in Hrun.
      eexists texts, _. split; [exact Htexts|]. split; [exact Hrun|].
      rewrite bool_decide_eq_true_2 by done.
      cbn [add_stderr stderr colorEnabled]. rewrite Hout, Hcolor.
      by rewrite <-app_assoc.
    + eexists texts, _. split; [exact Htexts|]. split; [exact Hrun|].
      rewrite bool_decide_eq_false_2 by lia.
      cbn [add_stderr stderr]. by rewrite Hout, app_nil_r.
Qed.


(** X1: in the codeframe layout a call writes, for the visible messages in
    their order, the text of [fullFormatMessage] at positions 0, 1, ... (shown
    as 1, 2, ...), each followed by a line feed and styled with the resolved
    colour option, and then the truncation notice when the list was not empty
    and [totalMessages - ignoredMessages > maxMessages]. *)
Theorem codeframe_output w messages rms opts :
  let maxMessages := default 100 (maxMessages opts) in
  let cwd := default process_cwd (cwd opts) in
  let color := default (colorEnabled w) (color opts) in
  let totalMessages := Z.of_nat (length rms) in
  let ignoredMessages :=
    Z.of_nat (length (filter (λ rm, ignored rm.2 = Some true) rms)) in
  holds w messages rms →
  default codeframe (format opts) = codeframe →
  Forall (renderable codeframe) (notIgnored rms).*2 →
  ∃ texts w',
    codeframeTexts color color cwd (visibleMessages rms maxMessages).*2
      = Normal texts
    ∧ formatMessages messages opts w = (Normal tt, w')
    ∧ stderr w'
      = stderr w ++ ((λ text, text +:+ LF) <$> texts)
        ++ (if bool_decide
                 (rms ≠ [] ∧ maxMessages < totalMessages - ignoredMessages)
            then [truncationNotice color totalMessages maxMessages]
            else []).
Proof. apply codeframe_layout_run. Qed.

(** X2: in the codeframe layout, when a visible message has no location,
    the call throws at that message: the messages before it have been
    written, it is not, and neither is any later message or the truncation
    notice. *)
Theorem codeframe_throws_midway w messages rms opts before r bad after texts :
  let maxMessages := default 100 (maxMessages opts) in
  let cwd := default process_cwd (cwd opts) in
  let color := default (colorEnabled w) (color opts) in
  holds w messages rms →
  default codeframe (format opts) = codeframe →
  visibleMessages rms maxMessages = before ++ (r, bad) :: after →
  codeframeTexts color color cwd before.*2 = Normal texts →
  location bad = [] →
  ∃ w', formatMessages messages opts w = (Throw TypeError, w')
        ∧ stderr w' = stderr w ++ ((λ text, text +:+ LF) <$> texts).
Proof.
  intros maxMessages cwd color Hh Hformat Hvisible Htexts Hbad.
  destruct (formatMessages_select w messages rms opts Hh)
    as (filtered & w1 & visible & w2 & _ & _ & Hh2 & Hout & Hcolor & Hrun).
  fold maxMessages cwd color in Hh2, Hcolor, Hrun.
  rewrite Hformat, Hvisible in *.
  destruct (Z.eqb_spec (Z.of_nat (length rms)) 0) as [Hzero|Hpos].
  { assert (rms = []) as -> by (apply length_zero_iff_nil; lia).
    rewrite visibleMessages_nil in Hvisible by done.
    by destruct before. }
  eexists. split.
  - rewrite Hrun. erewrite bind_throw; [done|]. unfold renderMessages.
    erewrite bind_run; [|by apply readArray_run].
    apply codeframe_loop_throw; [apply Hh2| |done]. by rewrite Hcolor.
  - cbn [add_stderr stderr]. by rewrite Hout.
Qed.

End CodeframeOutput.

(** ** What the stylish layout writes *)

Section StylishOutput.
Context `{Externals}.

(** The inner loop of lines 75-78. *)
Lemma stylish_lines_run (positionPad idPad : nat) msgs : ∀ i w texts,
  mapM (λ msg, shortFormatMessage (colorEnabled w) msg positionPad idPad) msgs
    = Normal texts →
  for_each
    (λ _ msg,
       enabled ← getColorEnabled;
       text ← lift (shortFormatMessage enabled msg positionPad idPad);
       stderr_write (text +:+ LF))
    i msgs w
  = (Normal tt, add_stderr ((λ text, text +:+ LF) <$> texts) w).
Proof.
  induction msgs as [|msg msgs IH]; intros i w texts Htexts.
  - cbn in Htexts. injection Htexts as <-. cbn. by rewrite add_stderr_nil.
  - apply mapM_Normal_cons in Htexts as (text & texts' & Htext & Htexts & ->).
    cbn [for_each]. erewrite bind_run.
    + rewrite (IH (S i) (add_stderr [text +:+ LF] w) texts' Htexts).
      by rewrite add_stderr_app.
    + erewrite bind_run; [|reflexivity]. rewrite Htext.
      erewrite bind_run; [|reflexivity]. apply stderr_write_run.
Qed.

Lemma stylishBlock_Normal enabled cwd entry block :
  stylishBlock enabled cwd entry = Normal block →
  ∃ texts,
    mapM (λ msg, shortFormatMessage enabled msg
                   (locationPad entry.2) (ruleIdPad entry.2))
      (fileMessages entry.2) = Normal texts
    ∧ block = (blue enabled (path_relative cwd entry.1) +:+ ":" +:+ LF)
                :: ((λ text, text +:+ LF) <$> texts) ++ [LF].
Proof.
  unfold stylishBlock, mbind, Completion_bind.
  destruct (mapM _ _) as [texts|e]; [|done]. intros [= <-]. by exists texts.
Qed.

(** The loop of lines 70-81 over the entries of [groupedByFile]. *)
Lemma stylish_blocks_run cwd entries : ∀ i w blocks,
  mapM (stylishBlock (colorEnabled w) cwd) entries = Normal blocks →
  for_each
    (λ _ entry,
       let file := entry.1 in
       let positionPad := locationPad entry.2 in
       enabled ← getColorEnabled;
       stderr_write (blue enabled (path_relative cwd file) +:+ ":" +:+ LF);;
       for_each
         (λ _ msg,
            enabled ← getColorEnabled;
            text ← lift (shortFormatMessage enabled msg positionPad
                           (ruleIdPad entry.2));
            stderr_write (text +:+ LF))
         0 (fileMessages entry.2);;
       stderr_write LF)
    i entries w
  = (Normal tt, add_stderr (mjoin blocks) w).
Proof.
  induction entries as [|entry entries IH]; intros i w blocks Hblocks.
  - cbn in Hblocks. injection Hblocks as <-. cbn. by rewrite add_stderr_nil.
  - apply mapM_Normal_cons in Hblocks as (block & blocks' & Hblock & Hblocks & ->).
    apply stylishBlock_Normal in Hblock as (texts & Htexts & ->).
    cbn [for_each]. erewrite bind_run; swap 1 2.
    + cbv zeta. erewrite bind_run; [|reflexivity].
      erewrite bind_run; [|apply stderr_write_run].
      erewrite bind_run; [|by apply stylish_lines_run].
      by rewrite stderr_write_run, !add_stderr_app.
    + match goal with
      | |- for_each _ _ _ ?w1 = _ =>
          etrans; [apply (IH (S i) w1 blocks' Hblocks)|]
      end.
      by rewrite add_stderr_app.
Qed.

Lemma stylishBlocks_exist enabled cwd msgs :
  Forall groupable msgs →
  ∃ blocks,
    mapM (stylishBlock enabled cwd) (Object_entries (groups_of msgs))
    = Normal blocks.
Proof.
  intros Hall. apply mapM_Normal_exists.
  eapply Forall_impl; [by apply groups_of_located|].
  intros entry Hlocated. unfold stylishBlock.
  destruct (mapM_Normal_exists
              (λ msg, shortFormatMessage enabled msg
                        (locationPad entry.2) (ruleIdPad entry.2))
              (fileMessages entry.2)) as [texts ->]; [|by eexists].
  eapply Forall_impl; [exact Hlocated|].
  intros msg [loc0 Hloc]. unfold shortFormatMessage. rewrite Hloc. by eexists.
Qed.

(** The stylish layout, from the call to the last chunk. *)
Lemma stylish_layout_run w messages rms opts :
  let maxMessages := default 100 (maxMessages opts) in
  let cwd := default process_cwd (cwd opts) in
  let color := default (colorEnabled w) (color opts) in
  let totalMessages := Z.of_nat (length rms) in
  let ignoredMessages :=
    Z.of_nat (length (filter (λ rm, ignored rm.2 = Some true) rms)) in
  holds w messages rms →
  default codeframe (format opts) = stylish →
  Forall (renderable stylish) (notIgnored rms).*2 →
  ∃ blocks w',
    mapM (stylishBlock color cwd)
      (Object_entries (groups_of (visibleMessages rms maxMessages).*2))
      = Normal blocks
    ∧ formatMessages messages opts w = (Normal tt, w')
    ∧ stderr w'
      = stderr w ++ mjoin blocks
        ++ (if bool_decide
                 (rms ≠ [] ∧ maxMessages < totalMessages - ignoredMessages)
            then [truncationNotice color totalMessages maxMessages]
            else []).
Proof.
  intros maxMessages cwd color totalMessages ignoredMessages Hh Hformat Hall.
  destruct (formatMessages_select w messages rms opts Hh)
    as (filtered & w1 & visible & w2 & _ & _ & Hh2 & Hout & Hcolor & Hrun).
  fold maxMessages cwd color totalMessages in Hh2, Hcolor, Hrun.
  rewrite Hformat in Hrun.
  pose proof (ignored_split rms) as Hsplit.
  replace (totalMessages - Z.of_nat (length (notIgnored rms)))
    with ignoredMessages in Hrun by (unfold totalMessages, ignoredMessages; lia).
  pose proof (visible_renderable stylish rms maxMessages Hall) as Hvisible.
  destruct (stylishBlocks_exist color cwd _ Hvisible) as [blocks Hblocks].
  exists blocks.
  destruct (Z.eqb_spec totalMessages 0) as [Hzero|Hpos].
  - assert (rms = []) as ->.
    { apply length_zero_iff_nil. unfold totalMessages in *. lia. }
    assert (blocks = []) as ->.
    { rewrite visibleMessages_nil in Hblocks by done.
      cbn in Hblocks. by injection Hblocks as <-. }
    exists w2. split; [done|]. split; [done|].
    rewrite bool_decide_eq_false_2 by tauto. by rewrite Hout, !app_nil_r.
  - assert (rms ≠ []) as Hne by (intros ->; by apply Hpos).
    assert (renderMessages stylish color cwd visible w2
            = (Normal tt, add_stderr (mjoin blocks) w2)) as Hbody.
    { unfold renderMessages.
      erewrite bind_run; [|by apply groupByFiles_run].
      apply stylish_blocks_run. by rewrite Hcolor. }
    erewrite bind_run in Hrun; [|exact Hbody].
    destruct (Z.ltb_spec maxMessages (totalMessages - ignoredMessages)) as [Hlt|Hge].
    + erewrite bind_run in Hrun; [|reflexivity]. rewrite stderr_write_run in Hrun.
      eexists. split; [exact Hblocks|]. split; [exact Hrun|].
      rewrite bool_decide_eq_true_2 by done.
      cbn [add_stderr stderr colorEnabled]. rewrite Hout, Hcolor.
      by rewrite <-app_assoc.
    + eexists. split; [exact Hblocks|]. split; [exact Hrun|].
      rewrite bool_decide_eq_false_2 by lia.
      cbn [add_stderr stderr]. by rewrite Hout, app_nil_r.
Qed.

(** X3: in the stylish layout a call groups the visible messages and
    writes, for each entry in the order of [Object.entries], the file header,
    one line for each message of the file and a blank line, styled with the
    resolved colour option, and then the truncation notice when the list was
    not empty and [totalMessages - ignoredMessages > maxMessages]. *)
Theorem stylish_output w messages rms opts :
  let maxMessages := default 100 (maxMessages opts) in
  let cwd := default process_cwd (cwd opts) in
  let color := default (colorEnabled w) (color opts) in
  let totalMessages := Z.of_nat (length rms) in
  let ignoredMessages :=
    Z.of_nat (length (filter (λ rm, ignored rm.2 = Some true) rms)) in
  holds w messages rms →
  default codeframe (format opts) = stylish →
  Forall (renderable stylish) (notIgnored rms).*2 →
  ∃ groupedByFile blocks w',
    (∀ w0 arr, holds w0 arr (visibleMessages rms maxMessages) →
               groupByFiles arr w0 = (Normal groupedByFile, w0))
    ∧ mapM (stylishBlock color cwd) (Object_entries groupedByFile) = Normal blocks
    ∧ formatMessages messages opts w = (Normal tt, w')
    ∧ stderr w'
      = stderr w ++ mjoin blocks
        ++ (if bool_decide
                 (rms ≠ [] ∧ maxMessages < totalMessages - ignoredMessages)
            then [truncationNotice color totalMessages maxMessages]
            else []).
Proof.
  intros maxMessages cwd color totalMessages ignoredMessages Hh Hformat Hall.
  destruct (stylish_layout_run w messages rms opts Hh Hformat Hall)
    as (blocks & w' & Hblocks & Hrun & Hout).
  exists (groups_of (visibleMessages rms maxMessages).*2), blocks, w'.
  split; [|done]. intros w0 arr Hh0. apply groupByFiles_run; [done|].
  by apply (visible_renderable stylish).
Qed.

Lemma groups_of_inherited_key before file :
  Forall groupable before →
  Object_prototype_has file = true →
  own_get (groups_of before) file = None.
Proof.
  intros Hall Hproto. rewrite groups_of_get. case_decide as Hin; [|done].
  apply list_elem_of_omap in Hin as (msg & Hmsg & Hfile).
  rewrite Forall_forall in Hall.
  destruct (Hall msg Hmsg) as (file' & Hfile' & Hproto'). congruence.
Qed.

(** The loop of [groupByFiles] throws as soon as it meets a message it
    cannot file. *)
Lemma group_all_throw msgs : ∀ before,
  Forall groupable before →
  Exists (λ msg, ¬ groupable msg) msgs →
  group_all (groups_of before) msgs = Throw TypeError.
Proof.
  induction msgs as [|msg msgs IH]; intros before Hbefore Hbad.
  { by apply Exists_nil in Hbad. }
  cbn [group_all].
  destruct (location msg !! 0%nat) as [location0|] eqn:Hloc.
  - destruct (Object_prototype_has (absoluteRef (source location0))) eqn:Hproto.
    + unfold groupByFiles_body. rewrite Hloc.
      by rewrite groups_of_inherited_key, Hproto.
    + assert (groupable msg) as Hmsg.
      { exists (absoluteRef (source location0)). split; [|done].
        unfold primaryFile. by rewrite Hloc. }
      rewrite groupByFiles_body_groups_of by done.
      cbn [mbind Completion_bind]. apply IH.
      * apply Forall_app. split; [done|by constructor].
      * by apply Exists_cons in Hbad as [?|?].
  - unfold groupByFiles_body. by rewrite Hloc.
Qed.

(** X4: in the stylish layout, when a visible message cannot be filed (it
    has no location, or its file is named like a member of
    [Object.prototype]), the call throws while grouping, before anything is
    written. *)
Theorem stylish_throws_before_output w messages rms opts :
  holds w messages rms →
  default codeframe (format opts) = stylish →
  Exists (λ rm, ¬ groupable rm.2)
    (visibleMessages rms (default 100 (maxMessages opts))) →
  ∃ w', formatMessages messages opts w = (Throw TypeError, w')
        ∧ stderr w' = stderr w.
Proof.
  intros Hh Hformat Hbad.
  destruct (formatMessages_select w messages rms opts Hh)
    as (filtered & w1 & visible & w2 & _ & _ & Hh2 & Hout & _ & Hrun).
  rewrite Hformat in Hrun.
  destruct (Z.eqb_spec (Z.of_nat (length rms)) 0) as [Hzero|Hpos].
  { assert (rms = []) as -> by (apply length_zero_iff_nil; lia).
    rewrite visibleMessages_nil in Hbad by done. by apply Exists_nil in Hbad. }
  exists w2. split; [|done]. rewrite Hrun.
  erewrite bind_throw; [done|]. unfold renderMessages, groupByFiles.
  erewrite bind_throw; [done|].
  erewrite bind_run; [|by apply readArray_run].
  rewrite groupByFiles_loop_run by apply Hh2.
  rewrite (group_all_throw _ []); [done|constructor|].
  by apply Exists_fmap.
Qed.

End StylishOutput.

(** ** Alignment in the stylish layout *)

Lemma length_append (a b : string) :
  String.length (a +:+ b) = (String.length a + String.length b)%nat.
Proof.
  induction a as [|ch a IH]; [done|]. rewrite append_cons. cbn. by rewrite IH.
Qed.

Lemma length_spaces (n : nat) :
  String.length (String.concat "" (replicate n " ")) = n.
Proof.
  induction n as [|n IH]; [done|]. destruct n as [|n]; [done|].
  change (replicate (S (S n)) " ") with (" " :: " " :: replicate n " ").
  rewrite concat_cons_cons, !length_append.
  change (" " :: replicate n " ") with (replicate (S n) " "). rewrite IH. done.
Qed.

(** [padEnd] pads up to the target length and never truncates. *)
Lemma padEnd_length (s : string) (targetLength : nat) :
  String.length (padEnd s targetLength)
  = (targetLength `max` String.length s)%nat.
Proof. unfold padEnd. rewrite length_append, length_spaces. lia. Qed.

Section Alignment.
Context `{Externals}.

(** X5: in every group the file grouper produces, the line
    [shortFormatMessage] renders for a message, with the pads of the group,
    has a position field of exactly [locationPad + 2] characters and a rule
    id field of exactly [ruleIdPad] characters: the columns of a file are
    aligned, and no field is truncated. *)
Theorem stylish_fields_aligned w messages rms :
  holds w messages rms →
  Forall groupable rms.*2 →
  ∃ fileGroups,
    groupByFiles messages w = (Normal fileGroups, w)
    ∧ ∀ file group msg enabled,
        (file, group) ∈ fileGroups → msg ∈ fileMessages group →
        ∃ position idField,
          shortFormatMessage enabled msg (locationPad group) (ruleIdPad group)
          = Normal ("  " +:+ position +:+ " "
                      +:+ COLORS (severity msg) enabled idField +:+ " "
                      +:+ message msg)
          ∧ String.length position = (locationPad group + 2)%nat
          ∧ String.length idField = ruleIdPad group.
Proof.
  intros Hh Hall. eexists. split; [by apply groupByFiles_run|].
  intros file group msg enabled Hin Hmsg. unfold groups_of in Hin.
  apply list_elem_of_fmap in Hin as (f & [= -> ->] & _).
  cbn [group_of fileMessages locationPad ruleIdPad] in *.
  assert (is_Some (location msg !! 0%nat)) as [loc0 Hloc].
  { apply list_elem_of_fmap in Hmsg as (m & -> & Hm).
    apply list_elem_of_filter in Hm as [_ Hm].
    rewrite Forall_forall in Hall. destruct (Hall m Hm) as (f' & Hfile & _).
    unfold primaryFile in Hfile. cbn [mappedMessage location].
    rewrite list_lookup_fmap. destruct (location m !! 0%nat); [by eexists|done]. }
  unfold shortFormatMessage. rewrite Hloc. eexists _, _. split; [done|].
  rewrite !padEnd_length. split.
  - assert (String.length (lineCol loc0)
            ≤ max_list ((λ loc, String.length (lineCol loc))
                          <$> mjoin (location
                                       <$> (mappedMessage
                                              <$> filed_under f rms.*2))))%nat;
      [|lia].
    apply max_list_elem_of_le, list_elem_of_fmap. exists loc0. split; [done|].
    apply list_elem_of_join. exists (location msg).
    split; [by eapply list_elem_of_lookup_2|].
    apply list_elem_of_fmap. by exists msg.
  - assert (String.length (ruleId msg)
            ≤ max_list ((λ m, String.length (ruleId m))
                          <$> (mappedMessage <$> filed_under f rms.*2)))%nat;
      [|lia].
    apply max_list_elem_of_le, list_elem_of_fmap. by exists msg.
Qed.

End Alignment.

(** ** Which messages are rendered *)

(** X6: every rendered message is a message of the input that is not
    ignored, rendered at most as often as it occurs there; when
    [totalMessages - ignoredMessages <= maxMessages] nothing is cut off: the
    rendered messages are all of them, each as often as it occurs. *)
Theorem rendered_messages_come_from_input w messages rms maxMessages :
  holds w messages rms →
  ∃ totalMessages ignoredMessages filtered w1 visible w2 shown,
    countAndFilter messages w
      = (Normal (totalMessages, filtered, ignoredMessages), w1)
    ∧ sortAndTruncate filtered maxMessages w1 = (Normal visible, w2)
    ∧ holds w2 visible shown
    ∧ shown ⊆+ filter (λ rm, ignored rm.2 ≠ Some true) rms
    ∧ (totalMessages - ignoredMessages ≤ maxMessages →
       shown ≡ₚ filter (λ rm, ignored rm.2 ≠ Some true) rms).
Proof.
  intros Hh.
  destruct (countAndFilter_run w messages rms Hh) as [Hrun1 Hh1].
  destruct (sortAndTruncate_run _ _ _ maxMessages Hh1) as [Hrun2 Hh2].
  eexists _, _, _, _, _, _, _.
  split; [exact Hrun1|]. split; [exact Hrun2|]. split; [exact Hh2|].
  rewrite <-notIgnored_filter, slice_0.
  assert (bySeverity (notIgnored rms) ≡ₚ notIgnored rms) as Hperm
    by apply stable_sort_Permutation.
  split.
  - etrans; [apply sublist_submseteq, sublist_take|].
    by apply Permutation_submseteq.
  - intros Hfits. rewrite take_ge; [done|].
    unfold relative_index, bySeverity. rewrite stable_sort_length.
    destruct (Z.ltb_spec maxMessages 0); lia.
Qed.

Section NothingVisible.
Context `{Externals}.




End NothingVisible.

(** ** The groups hold the messages *)

Section GroupsHoldMessages.
Context `{Externals}.

Lemma join_filed_under {B} (g : NormalizedReportMessage → B) files : ∀ msgs,
  NoDup files →
  (∀ msg, msg ∈ msgs → ∃ file, primaryFile source msg = Some file ∧ file ∈ files) →
  mjoin ((λ file, g <$> filed_under file msgs) <$> files) ≡ₚ g <$> msgs.
Proof.
  induction files as [|file files IH]; intros msgs Hnodup Hfiled.
  - destruct msgs as [|msg msgs]; [done|].
    destruct (Hfiled msg) as (f & _ & Hf); [left|]. by apply elem_of_nil in Hf.
  - apply NoDup_cons in Hnodup as [Hnotin Hnodup].
    set (others := filter (λ m, ¬ primaryFile source m = Some file) msgs).
    cbn [fmap list_fmap mjoin list_join].
    fold (fmap (M:=list) (λ f, g <$> filed_under f msgs) files).
    change (list_join B ?l) with (mjoin l).
    assert ((λ f, g <$> filed_under f msgs) <$> files
            = (λ f, g <$> filed_under f others) <$> files) as ->.
    { apply Forall_fmap_ext_1, Forall_forall. intros f Hf. f_equal.
      unfold filed_under, others. rewrite list_filter_filter.
      apply list_filter_iff. intros m. split; [|tauto].
      intros Hm. split; [done|]. intros Hm'. rewrite Hm in Hm'.
      injection Hm' as ->. done. }
    rewrite (IH others Hnodup).
    + rewrite <-fmap_app. apply fmap_Permutation, filter_app_complement.
    + intros msg Hmsg. apply list_elem_of_filter in Hmsg as [Hother Hmsg].
      destruct (Hfiled msg Hmsg) as (f & Hfile & Hf). exists f. split; [done|].
      apply elem_of_cons in Hf as [->|Hf]; [done|done].
Qed.

(** X9: the file grouper neither loses nor repeats a message: its groups
    have distinct files, none is empty, and together they hold the re-shaped
    copies of the messages it was given, each as often as it was given. *)
Theorem groups_hold_every_message w messages rms :
  holds w messages rms →
  Forall groupable rms.*2 →
  ∃ fileGroups,
    groupByFiles messages w = (Normal fileGroups, w)
    ∧ NoDup fileGroups.*1
    ∧ Forall (λ entry : string * FileGroup, fileMessages entry.2 ≠ []) fileGroups
    ∧ mjoin ((λ entry : string * FileGroup, fileMessages entry.2) <$> fileGroups)
      ≡ₚ mappedMessage <$> rms.*2.
Proof.
  intros Hh Hall. eexists. split; [by apply groupByFiles_run|].
  unfold groups_of. split; [|split].
  - rewrite <-list_fmap_compose.
    rewrite (list_fmap_ext _ id) by done. rewrite list_fmap_id.
    apply first_seen_NoDup.
  - apply Forall_fmap, Forall_forall. intros file Hfile. cbn.
    apply first_seen_elem_of, list_elem_of_omap in Hfile as (msg & Hmsg & Hfile).
    intros Hnil. apply fmap_nil_inv in Hnil.
    assert (msg ∈ filed_under file rms.*2) as Hin
      by (by apply list_elem_of_filter).
    rewrite Hnil in Hin. by apply elem_of_nil in Hin.
  - rewrite <-list_fmap_compose.
    apply (join_filed_under mappedMessage); [apply first_seen_NoDup|].
    intros msg Hmsg. rewrite Forall_forall in Hall.
    destruct (Hall msg Hmsg) as (file & Hfile & _). exists file.
    split; [done|]. apply first_seen_elem_of, list_elem_of_omap. by exists msg.
Qed.

End GroupsHoldMessages.

(** ** A truncated run *)



Section TruncatedRun.
Context `{Externals}.


End TruncatedRun.

(** ** Severity order inside the groups *)

Section GroupOrder.
Context `{Externals}.

(** X11: sorting before grouping orders every file: every visible message
    is in the group of its file, the messages of a group are the visible
    messages of its file, and in each group the errors come before the
    warnings. *)
Theorem groups_keep_severity_order w messages rms maxMessages :
  holds w messages rms →
  Forall groupable (notIgnored rms).*2 →
  ∃ totalMessages ignoredMessages filtered w1 visible w2 shown fileGroups,
    countAndFilter messages w
      = (Normal (totalMessages, filtered, ignoredMessages), w1)
    ∧ sortAndTruncate filtered maxMessages w1 = (Normal visible, w2)
    ∧ holds w2 visible shown
    ∧ groupByFiles visible w2 = (Normal fileGroups, w2)
    ∧ (∀ rm, rm ∈ shown →
         ∃ file group,
           primaryFile source rm.2 = Some file
           ∧ (file, group) ∈ fileGroups
           ∧ mappedMessage rm.2 ∈ fileMessages group)
    ∧ ∀ file group, (file, group) ∈ fileGroups →
        fileMessages group
        = mappedMessage
            <$> filter (λ m, primaryFile source m = Some file) shown.*2
        ∧ ∃ errors warns,
            fileMessages group = errors ++ warns
            ∧ Forall (λ m : OnlyLineColMessage, severity m = error) errors
            ∧ Forall (λ m : OnlyLineColMessage, severity m = warn) warns.
Proof.
  intros Hh Hall.
  destruct (countAndFilter_run w messages rms Hh) as [Hrun1 Hh1].
  destruct (sortAndTruncate_run _ _ _ maxMessages Hh1) as [Hrun2 Hh2].
  pose proof (visible_renderable stylish rms maxMessages Hall) as Hvisible.
  unfold visibleMessages in Hvisible.
  eexists _, _, _, _, _, _, _, _.
  split; [exact Hrun1|]. split; [exact Hrun2|]. split; [exact Hh2|].
  split; [by apply groupByFiles_run|]. split.
  { intros rm Hrm.
    assert (rm.2 ∈ (slice (bySeverity (notIgnored rms)) 0 maxMessages).*2)
      as Hmsg by (apply list_elem_of_fmap; by exists rm).
    pose proof (proj1 (Forall_forall _ _) Hvisible _ Hmsg) as (file & Hfile & _).
    eexists file, _. split; [done|]. split.
    - unfold groups_of. apply list_elem_of_fmap. exists file. split; [done|].
      apply first_seen_elem_of, list_elem_of_omap. by exists rm.2.
    - cbn [group_of fileMessages]. apply list_elem_of_fmap. exists rm.2.
      split; [done|]. by apply list_elem_of_filter. }
  intros file group Hin. unfold groups_of in Hin.
  apply list_elem_of_fmap in Hin as (f & [= -> ->] & _).
  cbn [group_of fileMessages]. unfold filed_under. split; [done|].
  rewrite slice_0. set (n := Z.to_nat _). clearbody n.
  rewrite bySeverity_partition, take_app, fmap_app, filter_app, fmap_app.
  eexists _, _. split; [done|]. split.
  - apply Forall_fmap, Forall_forall. intros msg Hmsg.
    apply list_elem_of_filter in Hmsg as [_ Hmsg].
    apply list_elem_of_fmap in Hmsg as (rm & -> & Hrm).
    apply subseteq_take, list_elem_of_filter in Hrm as [Hrm _]. done.
  - apply Forall_fmap, Forall_forall. intros msg Hmsg.
    apply list_elem_of_filter in Hmsg as [_ Hmsg].
    apply list_elem_of_fmap in Hmsg as (rm & -> & Hrm).
    apply subseteq_take, list_elem_of_filter in Hrm as [Hrm _].
    by apply not_error_warn.
Qed.

End GroupOrder.

(** ** Calling again *)

Section CallingAgain.
Context `{Externals}.

(** What a call leaves in place: the arrays and objects it found, and the
    colour option it resolved in the toggle. *)
Lemma formatMessages_keeps w messages opts :
  let w' := (formatMessages messages opts w).2 in
  (∀ arr elems, arrays w !! arr = Some elems → arrays w' !! arr = Some elems)
  ∧ objects w' = objects w
  ∧ colorEnabled w' = default (colorEnabled w) (color opts).
Proof.
  cbv zeta. remember (formatMessages messages opts w) as result eqn:Hresult.
  unfold formatMessages in Hresult.
  unfold mbind at 1, M_bind at 1 in Hresult. cbn [getColorEnabled] in Hresult.
  unfold mbind at 1, M_bind at 1 in Hresult. cbn [setColorEnabled] in Hresult.
  set (w0 := {| arrays := arrays w |}) in Hresult.
  unfold mbind at 1, M_bind at 1 in Hresult.
  pose proof (preserves_countAndFilter (λ _, False) messages w0) as Hfilter.
  destruct (countAndFilter messages w0) as [[[[total filtered] ignoredN]|e] w1]
    eqn:Hrun1; cbn [snd] in *; destruct Hfilter as (Harr1 & Hobj1 & Hcol1).
  - apply countAndFilter_fresh in Hrun1.
    match type of Hresult with
    | _ = (sortAndTruncate filtered ?n ≫= ?k) w1 =>
        pose proof (preserves_after_filter (λ arr, arr = filtered) k filtered n
                      eq_refl) as Hrest
    end.
    destruct (Hrest (λ visible, preserves_render_and_notice _ _ _ _ _ _ _ _) w1)
      as (Harr2 & Hobj2 & Hcol2).
    rewrite <-Hresult in Harr2, Hobj2, Hcol2.
    split; [|split; [etrans; [exact Hobj2|exact Hobj1]
                    |etrans; [exact Hcol2|exact Hcol1]]].
    intros arr elems Harr. apply Harr2.
    + intros ->. change (arrays w0) with (arrays w) in Hrun1. congruence.
    + apply Harr1; [tauto|done].
  - subst result. split; [|split; [done|exact Hcol1]].
    intros arr elems Harr. apply Harr1; [tauto|done].
Qed.

Lemma formatMessages_keeps_holds w messages rms opts :
  holds w messages rms → holds (formatMessages messages opts w).2 messages rms.
Proof.
  intros [Harr Hp].
  destruct (formatMessages_keeps w messages opts) as (Harr' & Hobj' & _).
  split; [by apply Harr'|]. unfold points. by rewrite Hobj'.
Qed.

Lemma default_default {A} (a : A) (o : option A) :
  default (default a o) o = default a o.
Proof. by destruct o. Qed.

(** X12: a call can be repeated: on messages the layout can render, a
    second call with the same arguments, made in the world the first one
    left, finds the caller's messages as they were, resolves the same colour
    option and writes the same chunks again. *)
Theorem call_can_be_repeated w messages rms opts :
  holds w messages rms →
  Forall (renderable (default codeframe (format opts))) (notIgnored rms).*2 →
  ∃ out w1 w2,
    formatMessages messages opts w = (Normal tt, w1)
    ∧ stderr w1 = stderr w ++ out
    ∧ formatMessages messages opts w1 = (Normal tt, w2)
    ∧ stderr w2 = stderr w1 ++ out.
Proof.
  intros Hh Hall.
  pose proof (formatMessages_keeps_holds w messages rms opts Hh) as Hh1.
  destruct (formatMessages_keeps w messages opts) as (_ & _ & Hcolor).
  destruct (default codeframe (format opts)) eqn:Hformat.
  - destruct (codeframe_layout_run w messages rms opts Hh Hformat Hall)
      as (texts & w1 & Htexts & Hrun & Hout).
    rewrite Hrun in Hh1, Hcolor. cbn [snd] in Hh1, Hcolor.
    destruct (codeframe_layout_run w1 messages rms opts Hh1 Hformat Hall)
      as (texts' & w2 & Htexts' & Hrun' & Hout').
    rewrite Hcolor, default_default in Htexts', Hout'.
    assert (texts' = texts) as -> by congruence.
    eexists _, w1, w2. split; [done|]. split; [|split; [done|]].
    + rewrite Hout. reflexivity.
    + rewrite Hout'. reflexivity.
  - destruct (stylish_layout_run w messages rms opts Hh Hformat Hall)
      as (blocks & w1 & Hblocks & Hrun & Hout).
    rewrite Hrun in Hh1, Hcolor. cbn [snd] in Hh1, Hcolor.
    destruct (stylish_layout_run w1 messages rms opts Hh1 Hformat Hall)
      as (blocks' & w2 & Hblocks' & Hrun' & Hout').
    rewrite Hcolor, default_default in Hblocks', Hout'.
    assert (blocks' = blocks) as -> by congruence.
    eexists _, w1, w2. split; [done|]. split; [|split; [done|]].
    + rewrite Hout. reflexivity.
    + rewrite Hout'. reflexivity.
Qed.

End CallingAgain.

(** ** The further properties at the concrete run *)

Lemma codeframe_output_witness :
  let totalMessages := Z.of_nat (length reported) in
  let ignoredMessages :=
    Z.of_nat (length (filter (λ rm, ignored rm.2 = Some true) reported)) in
  holds world 0 reported
  ∧ default codeframe (format (codeframeOpts 100)) = codeframe
  ∧ Forall (renderable codeframe) (notIgnored reported).*2
  ∧ ∃ texts w',
      codeframeTexts false false "/" (visibleMessages reported 100).*2
        = Normal texts
      ∧ formatMessages 0 (codeframeOpts 100) world = (Normal tt, w')
      ∧ stderr w'
        = stderr world ++ ((λ text, text +:+ LF) <$> texts)
          ++ (if bool_decide
                   (reported ≠ [] ∧ 100 < totalMessages - ignoredMessages)
              then [truncationNotice false totalMessages 100]
              else []).
Proof.
  split; [split; [reflexivity|repeat constructor]|].
  split; [reflexivity|].
  split; [repeat constructor; by eexists|].
  refine (codeframe_output world 0%nat reported (codeframeOpts 100) _ _ _).
  - split; [reflexivity|repeat constructor].
  - reflexivity.
  - repeat constructor; by eexists.
Defined.

Lemma codeframe_throws_midway_witness :
  ∃ texts,
    holds unlocatedWorld 0 unlocatedReported
    ∧ default codeframe (format (codeframeOpts 100)) = codeframe
    ∧ visibleMessages unlocatedReported 100
      = [(11%nat, noBar)] ++ (13%nat, noFooUnlocated) :: []
    ∧ codeframeTexts false false "/" [(11%nat, noBar)].*2 = Normal texts
    ∧ location noFooUnlocated = []
    ∧ ∃ w',
        formatMessages 0 (codeframeOpts 100) unlocatedWorld
        = (Throw TypeError, w')
        ∧ stderr w'
          = stderr unlocatedWorld ++ ((λ text, text +:+ LF) <$> texts).
Proof.
  eexists.
  split; [split; [reflexivity|repeat constructor]|].
  split; [reflexivity|]. split; [reflexivity|].
  split; [vm_compute; reflexivity|]. split; [reflexivity|].
  refine (codeframe_throws_midway unlocatedWorld 0%nat unlocatedReported
            (codeframeOpts 100) [(11%nat, noBar)] 13%nat noFooUnlocated [] _
            _ _ _ _ _).
  - split; [reflexivity|repeat constructor].
  - reflexivity.
  - reflexivity.
  - vm_compute. reflexivity.
  - reflexivity.
Defined.

Lemma stylish_output_witness :
  let totalMessages := Z.of_nat (length reported) in
  let ignoredMessages :=
    Z.of_nat (length (filter (λ rm, ignored rm.2 = Some true) reported)) in
  holds world 0 reported
  ∧ default codeframe (format (stylishOpts 100)) = stylish
  ∧ Forall (renderable stylish) (notIgnored reported).*2
  ∧ ∃ groupedByFile blocks w',
      (∀ w0 arr, holds w0 arr (visibleMessages reported 100) →
                 groupByFiles arr w0 = (Normal groupedByFile, w0))
      ∧ mapM (stylishBlock false "/") (Object_entries groupedByFile)
        = Normal blocks
      ∧ formatMessages 0 (stylishOpts 100) world = (Normal tt, w')
      ∧ stderr w'
        = stderr world ++ mjoin blocks
          ++ (if bool_decide
                   (reported ≠ [] ∧ 100 < totalMessages - ignoredMessages)
              then [truncationNotice false totalMessages 100]
              else []).
Proof.
  split; [split; [reflexivity|repeat constructor]|].
  split; [reflexivity|].
  split; [repeat constructor; eexists; (split; reflexivity)|].
  refine (stylish_output world 0%nat reported (stylishOpts 100) _ _ _).
  - split; [reflexivity|repeat constructor].
  - reflexivity.
  - repeat constructor; eexists; (split; reflexivity).
Defined.

Lemma stylish_throws_before_output_witness :
  holds unlocatedWorld 0 unlocatedReported
  ∧ default codeframe (format (stylishOpts 100)) = stylish
  ∧ Exists (λ rm : nat * NormalizedReportMessage, ¬ groupable rm.2)
      (visibleMessages unlocatedReported
         (default 100 (maxMessages (stylishOpts 100))))
  ∧ ∃ w',
      formatMessages 0 (stylishOpts 100) unlocatedWorld = (Throw TypeError, w')
      ∧ stderr w' = stderr unlocatedWorld.
Proof.
  assert (Exists (λ rm : nat * NormalizedReportMessage, ¬ groupable rm.2)
            (visibleMessages unlocatedReported
               (default 100 (maxMessages (stylishOpts 100))))) as Hbad.
  { change (Exists (λ rm : nat * NormalizedReportMessage, ¬ groupable rm.2)
              [(11%nat, noBar); (13%nat, noFooUnlocated)]).
    apply Exists_cons_tl, Exists_cons_hd. intros (file & Hfile & _).
    discriminate Hfile. }
  split; [split; [reflexivity|repeat constructor]|].
  split; [reflexivity|]. split; [exact Hbad|].
  refine (stylish_throws_before_output unlocatedWorld 0%nat unlocatedReported
            (stylishOpts 100) _ _ Hbad).
  - split; [reflexivity|repeat constructor].
  - reflexivity.
Defined.

Lemma stylish_fields_aligned_witness :
  holds world 0 reported
  ∧ Forall groupable reported.*2
  ∧ ∃ fileGroups,
      groupByFiles 0 world = (Normal fileGroups, world)
      ∧ ∀ file group msg enabled,
          (file, group) ∈ fileGroups → msg ∈ fileMessages group →
          ∃ position idField,
            shortFormatMessage enabled msg (locationPad group) (ruleIdPad group)
            = Normal ("  " +:+ position +:+ " "
                        +:+ COLORS (severity msg) enabled idField +:+ " "
                        +:+ message msg)
            ∧ String.length position = (locationPad group + 2)%nat
            ∧ String.length idField = ruleIdPad group.
Proof.
  split; [split; [reflexivity|repeat constructor]|].
  split; [repeat constructor; eexists; (split; reflexivity)|].
  refine (stylish_fields_aligned world 0%nat reported _ _).
  - split; [reflexivity|repeat constructor].
  - repeat constructor; eexists; (split; reflexivity).
Defined.

Lemma rendered_messages_come_from_input_witness :
  holds world 0 reported
  ∧ ∃ totalMessages ignoredMessages filtered w1 visible w2 shown,
      countAndFilter 0 world
        = (Normal (totalMessages, filtered, ignoredMessages), w1)
      ∧ sortAndTruncate filtered 100 w1 = (Normal visible, w2)
      ∧ holds w2 visible shown
      ∧ shown ⊆+ filter (λ rm, ignored rm.2 ≠ Some true) reported
      ∧ (totalMessages - ignoredMessages ≤ 100 →
         shown ≡ₚ filter (λ rm, ignored rm.2 ≠ Some true) reported).
Proof.
  split; [split; [reflexivity|repeat constructor]|].
  refine (rendered_messages_come_from_input world 0%nat reported 100 _).
  split; [reflexivity|repeat constructor].
Defined.



Lemma groups_hold_every_message_witness :
  holds world 0 reported
  ∧ Forall groupable reported.*2
  ∧ ∃ fileGroups,
      groupByFiles 0 world = (Normal fileGroups, world)
      ∧ NoDup fileGroups.*1
      ∧ Forall (λ entry : string * FileGroup, fileMessages entry.2 ≠ [])
          fileGroups
      ∧ mjoin ((λ entry : string * FileGroup, fileMessages entry.2)
                 <$> fileGroups)
        ≡ₚ mappedMessage <$> reported.*2.
Proof.
  split; [split; [reflexivity|repeat constructor]|].
  split; [repeat constructor; eexists; (split; reflexivity)|].
  refine (groups_hold_every_message world 0%nat reported _ _).
  - split; [reflexivity|repeat constructor].
  - repeat constructor; eexists; (split; reflexivity).
Defined.


Lemma groups_keep_severity_order_witness :
  holds mixedWorld 0 mixedReported
  ∧ Forall groupable (notIgnored mixedReported).*2
  ∧ ∃ totalMessages ignoredMessages filtered w1 visible w2 shown fileGroups,
      countAndFilter 0 mixedWorld
        = (Normal (totalMessages, filtered, ignoredMessages), w1)
      ∧ sortAndTruncate filtered 100 w1 = (Normal visible, w2)
      ∧ holds w2 visible shown
      ∧ groupByFiles visible w2 = (Normal fileGroups, w2)
      ∧ (∀ rm, rm ∈ shown →
           ∃ file group,
             primaryFile source rm.2 = Some file
             ∧ (file, group) ∈ fileGroups
             ∧ mappedMessage rm.2 ∈ fileMessages group)
      ∧ ∀ file group, (file, group) ∈ fileGroups →
          fileMessages group
          = mappedMessage
              <$> filter (λ m, primaryFile source m = Some file) shown.*2
          ∧ ∃ errors warns,
              fileMessages group = errors ++ warns
              ∧ Forall (λ m : OnlyLineColMessage, severity m = error) errors
              ∧ Forall (λ m : OnlyLineColMessage, severity m = warn) warns.
Proof.
  split; [split; [reflexivity|repeat constructor]|].
  split; [repeat constructor; eexists; (split; reflexivity)|].
  refine (groups_keep_severity_order mixedWorld 0%nat mixedReported 100 _ _).
  - split; [reflexivity|repeat constructor].
  - repeat constructor; eexists; (split; reflexivity).
Defined.

Lemma call_can_be_repeated_witness :
  holds world 0 reported
  ∧ Forall (renderable (default codeframe (format (stylishOpts 100))))
      (notIgnored reported).*2
  ∧ ∃ out w1 w2,
      formatMessages 0 (stylishOpts 100) world = (Normal tt, w1)
      ∧ stderr w1 = stderr world ++ out
      ∧ formatMessages 0 (stylishOpts 100) w1 = (Normal tt, w2)
      ∧ stderr w2 = stderr w1 ++ out.
Proof.
  split; [split; [reflexivity|repeat constructor]|].
  split; [repeat constructor; eexists; (split; reflexivity)|].
  refine (call_can_be_repeated world 0%nat reported (stylishOpts 100) _ _).
  - split; [reflexivity|repeat constructor].
  - repeat constructor; eexists; (split; reflexivity).
Defined.
